(** * kalibrate-hydrasdr: the two-stage rational resampler and its source adapter

    A shallow embedding of [dsp_resampler.cc], [dsp_resampler.h] and the
    producer/consumer glue of [iio_source.cc], together with the properties
    of the resampler state, the coefficient tables and the overflow
    accounting.

    Conventions.
    - [float] is IEEE-754 binary32, taken from the Standard Library's
      [SpecFloat] at precision 24 and maximal exponent 128, so that every
      product and sum below rounds exactly as the single-precision
      arithmetic of the source does (round to nearest, ties to even).
    - [std::complex<float>] is a pair of such floats.
    - the [int] fields of the resampler are integers of [Z]; the invariants
      proved below keep them far inside the range of a 32-bit [int].
    - a product and a sum are rounded one after the other, as the source
      writes them; equality of samples is identity of the stored values.
    - fixed-size arrays are lists, read with [!!!] and written with
      [<[i:=x]>].  An index outside its array is undefined behaviour in the
      source; here such a read yields the default sample and such a write
      does nothing, and the invariants below keep every index of a
      constructed resampler inside its array.
    - the output buffer of [process] is a map from indices to samples, so
      that a write past the capacity would be visible.
    - what other threads do to the shared state of the source adapter is
      given to [fill] as a list of events. *)

From Stdlib Require Import ZArith List Lia Bool.
From Stdlib Require Import Floats.SpecFloat.
From stdpp Require Import base option list gmap.
From Equations Require Import Equations.

Local Open Scope Z_scope.

(** ** Single-precision floats *)

Module F32.

Definition prec : Z := 24.
Definition emax : Z := 128.

Definition float : Type := spec_float.

Definition zero : float := S754_zero false.
Definition add (x y : float) : float := SFadd prec emax x y.
Definition mul (x y : float) : float := SFmul prec emax x y.
Definition div (x y : float) : float := SFdiv prec emax x y.
Definition opp (x : float) : float := SFopp x.

(** The exact integer [m] as an unrounded operand of a division. *)
Definition exact (m : positive) : float := S754_finite false m 0.

(** [0.dddddddd f] with the eight digits read as the integer [digits]: the
    binary32 number nearest to [digits / 10^8].  The quotient of the two
    exact integers is rounded once, as a compiler rounds a decimal literal. *)
Definition lit8 (digits : positive) : float :=
  div (exact digits) (exact 100000000).

(** A table entry as written in the source: [0.dddddddd f] or
    [-0.dddddddd f] (unary minus applied to the literal). *)
Definition of_dec8 (d : Z) : float :=
  match d with
  | Z0 => zero
  | Zpos p => lit8 p
  | Zneg p => opp (lit8 p)
  end.

(** Conversion of a 16-bit integer to float (always exact). *)
Definition of_int (z : Z) : float := binary_normalize prec emax z 0 false.

Definition is_finite (x : float) : bool :=
  match x with
  | S754_zero _ | S754_finite _ _ _ => true
  | S754_infinity _ | S754_nan => false
  end.

End F32.

Abbreviation float := F32.float.

(** ** Complex samples *)

Record complex : Type := Complex { real : float; imag : float }.

Definition c0 : complex := Complex F32.zero F32.zero.

#[global] Instance complex_inhabited : Inhabited complex := populate c0.
#[global] Instance float_inhabited : Inhabited float := populate F32.zero.

(** ** Constants of [dsp_resampler.h] *)

Definition S1_DECIMATION : Z := 5.
Definition S1_TAPS : Z := 61.
Definition S2_INTERP : Z := 13.
Definition S2_DECIM : Z := 24.
Definition S2_TAPS_TOTAL : Z := 729.
Definition S2_PHASES : Z := 13.
Definition S2_TAPS_PER_PHASE : Z := 57.

(** ** Coefficient tables of [dsp_resampler.cc]

    Every entry of the source has the form [±0.dddddddd f]; the tables
    below list the eight digits with their sign, in source order. *)

Definition S1_COEFFS_dec : list Z :=
  [
    (-31204); (-4545); 27904; 68462; 117369; 171261; 222291; 258239; 263792; 222986;
    122527; (-44472); (-274968); (-553362); (-850401); (-1124041); (-1322480); (-1389213); (-1269630); (-918414);
    (-306760); 571594; 1696486; 3020315; 4470262; 5953716; 7366408; 8602410; 9564828; 10175928;
    10385425; 10175928; 9564828; 8602410; 7366408; 5953716; 4470262; 3020315; 1696486; 571594;
    (-306760); (-918414); (-1269630); (-1389213); (-1322480); (-1124041); (-850401); (-553362); (-274968); (-44472);
    122527; 222986; 263792; 258239; 222291; 171261; 117369; 68462; 27904; (-4545);
    (-31204)
  ]%Z.

Definition S2_COEFFS_RAW_dec : list Z :=
  [
    6223; 8348; 10558; 12822; 15103; 17364; 19563; 21657; 23602; 25352;
    26862; 28088; 28987; 29518; 29645; 29335; 28560; 27297; 25530; 23250;
    20457; 17156; 13363; 9102; 4406; (-685); (-6118); (-11837); (-17773); (-23854);
    (-29997); (-36117); (-42123); (-47919); (-53408); (-58492); (-63073); (-67054); (-70345); (-72856);
    (-74507); (-75225); (-74948); (-73624); (-71213); (-67689); (-63041); (-57275); (-50410); (-42486);
    (-33556); (-23693); (-12986); (-1541); 10521; 23065; 35940; 48986; 62030; 74893;
    87389; 99328; 110520; 120776; 129911; 137746; 144115; 148862; 151848; 152951;
    152070; 149128; 144071; 136874; 127538; 116095; 102608; 87168; 69899; 50954;
    30517; 8797; (-13967); (-37515); (-61564); (-85814); (-109948); (-133640); (-156555); (-178356);
    (-198708); (-217281); (-233757); (-247834); (-259230); (-267687); (-272980); (-274914); (-273333); (-268124);
    (-259216); (-246584); (-230256); (-210307); (-186864); (-160106); (-130261); (-97608); (-62475); (-25231);
    13710; 53898; 94851; 136058; 176987; 217094; 255821; 292613; 326921; 358207;
    385958; 409687; 428946; 443327; 452477; 456097; 453952; 445874; 431768; 411615;
    385475; 353489; 315879; 272948; 225079; 172731; 116439; 56804; (-5507); (-69772);
    (-135221); (-201043); (-266396); (-330420); (-392241); (-450990); (-505810); (-555867); (-600365); (-638554);
    (-669745); (-693318); (-708733); (-715538); (-713383); (-702020); (-681315); (-651250); (-611931); (-563584);
    (-506559); (-441331); (-368495); (-288760); (-202948); (-111983); (-16881); 81255; 181253; 281883;
    381869; 479909; 574686; 664889; 749226; 826447; 895353; 954824; 1003823; 1041425;
    1066821; 1079337; 1078447; 1063781; 1035138; 992489; 935985; 865958; 782926; 687585;
    580809; 463646; 337303; 203138; 62649; (-82545); (-230721); (-380069); (-528715); (-674743);
    (-816217); (-951208); (-1077816); (-1194198); (-1298589); (-1389331); (-1464896); (-1523907); (-1565160); (-1587648);
    (-1590574); (-1573368); (-1535704); (-1477506); (-1398957); (-1300505); (-1182863); (-1047007); (-894172); (-725840);
    (-543732); (-349788); (-146152); 64853; 280748; 498923; 716673; 931224; 1139769; 1339500;
    1527647; 1701514; 1858509; 1996189; 2112285; 2204744; 2271754; 2311775; 2323569; 2306220;
    2259153; 2182153; 2075379; 1939366; 1775034; 1583683; 1366988; 1126989; 866075; 586962;
    292669; (-13512); (-328049); (-647209); (-967096); (-1283700); (-1592941); (-1890715); (-2172949); (-2435652);
    (-2674963); (-2887205); (-3068936); (-3216995); (-3328555); (-3401158); (-3432764); (-3421783); (-3367109); (-3268145);
    (-3124827); (-2937639); (-2707622); (-2436378); (-2126065); (-1779388); (-1399582); (-990387); (-556016); (-101120);
    369256; 849721; 1334598; 1817979; 2293788; 2755853; 3197977; 3614006; 3997908; 4343847;
    4646260; 4899927; 5100048; 5242308; 5322946; 5338817; 5287443; 5167070; 4976706; 4716159;
    4386067; 3987915; 3524046; 2997665; 2412829; 1774434; 1088181; 360548; (-401259); (-1189360);
    (-1995265); (-2809939); (-3623888); (-4427239); (-5209830); (-5961309); (-6671236); (-7329178); (-7924826); (-8448092);
    (-8889222); (-9238899); (-9488349); (-9629439); (-9654773); (-9557785); (-9332819); (-8975211); (-8481352); (-7848750);
    (-7076078); (-6163212); (-5111262); (-3922583); (-2600783); (-1150713); 421551; 2108744; 3902451; 5793165;
    7770356; 9822543; 11937385; 14101777; 16301956; 18523608; 20751995; 22972070; 25168610; 27326347;
    29430098; 31464897; 33416129; 35269658; 37011953; 38630207; 40112455; 41447680; 42625912; 43638319;
    44477288; 45136492; 45610949; 45897070; 45992685; 45897070; 45610949; 45136492; 44477288; 43638319;
    42625912; 41447680; 40112455; 38630207; 37011953; 35269658; 33416129; 31464897; 29430098; 27326347;
    25168610; 22972070; 20751995; 18523608; 16301956; 14101777; 11937385; 9822543; 7770356; 5793165;
    3902451; 2108744; 421551; (-1150713); (-2600783); (-3922583); (-5111262); (-6163212); (-7076078); (-7848750);
    (-8481352); (-8975211); (-9332819); (-9557785); (-9654773); (-9629439); (-9488349); (-9238899); (-8889222); (-8448092);
    (-7924826); (-7329178); (-6671236); (-5961309); (-5209830); (-4427239); (-3623888); (-2809939); (-1995265); (-1189360);
    (-401259); 360548; 1088181; 1774434; 2412829; 2997665; 3524046; 3987915; 4386067; 4716159;
    4976706; 5167070; 5287443; 5338817; 5322946; 5242308; 5100048; 4899927; 4646260; 4343847;
    3997908; 3614006; 3197977; 2755853; 2293788; 1817979; 1334598; 849721; 369256; (-101120);
    (-556016); (-990387); (-1399582); (-1779388); (-2126065); (-2436378); (-2707622); (-2937639); (-3124827); (-3268145);
    (-3367109); (-3421783); (-3432764); (-3401158); (-3328555); (-3216995); (-3068936); (-2887205); (-2674963); (-2435652);
    (-2172949); (-1890715); (-1592941); (-1283700); (-967096); (-647209); (-328049); (-13512); 292669; 586962;
    866075; 1126989; 1366988; 1583683; 1775034; 1939366; 2075379; 2182153; 2259153; 2306220;
    2323569; 2311775; 2271754; 2204744; 2112285; 1996189; 1858509; 1701514; 1527647; 1339500;
    1139769; 931224; 716673; 498923; 280748; 64853; (-146152); (-349788); (-543732); (-725840);
    (-894172); (-1047007); (-1182863); (-1300505); (-1398957); (-1477506); (-1535704); (-1573368); (-1590574); (-1587648);
    (-1565160); (-1523907); (-1464896); (-1389331); (-1298589); (-1194198); (-1077816); (-951208); (-816217); (-674743);
    (-528715); (-380069); (-230721); (-82545); 62649; 203138; 337303; 463646; 580809; 687585;
    782926; 865958; 935985; 992489; 1035138; 1063781; 1078447; 1079337; 1066821; 1041425;
    1003823; 954824; 895353; 826447; 749226; 664889; 574686; 479909; 381869; 281883;
    181253; 81255; (-16881); (-111983); (-202948); (-288760); (-368495); (-441331); (-506559); (-563584);
    (-611931); (-651250); (-681315); (-702020); (-713383); (-715538); (-708733); (-693318); (-669745); (-638554);
    (-600365); (-555867); (-505810); (-450990); (-392241); (-330420); (-266396); (-201043); (-135221); (-69772);
    (-5507); 56804; 116439; 172731; 225079; 272948; 315879; 353489; 385475; 411615;
    431768; 445874; 453952; 456097; 452477; 443327; 428946; 409687; 385958; 358207;
    326921; 292613; 255821; 217094; 176987; 136058; 94851; 53898; 13710; (-25231);
    (-62475); (-97608); (-130261); (-160106); (-186864); (-210307); (-230256); (-246584); (-259216); (-268124);
    (-273333); (-274914); (-272980); (-267687); (-259230); (-247834); (-233757); (-217281); (-198708); (-178356);
    (-156555); (-133640); (-109948); (-85814); (-61564); (-37515); (-13967); 8797; 30517; 50954;
    69899; 87168; 102608; 116095; 127538; 136874; 144071; 149128; 152070; 152951;
    151848; 148862; 144115; 137746; 129911; 120776; 110520; 99328; 87389; 74893;
    62030; 48986; 35940; 23065; 10521; (-1541); (-12986); (-23693); (-33556); (-42486);
    (-50410); (-57275); (-63041); (-67689); (-71213); (-73624); (-74948); (-75225); (-74507); (-72856);
    (-70345); (-67054); (-63073); (-58492); (-53408); (-47919); (-42123); (-36117); (-29997); (-23854);
    (-17773); (-11837); (-6118); (-685); 4406; 9102; 13363; 17156; 20457; 23250;
    25530; 27297; 28560; 29335; 29645; 29518; 28987; 28088; 26862; 25352;
    23602; 21657; 19563; 17364; 15103; 12822; 10558; 8348; 6223
  ]%Z.

Definition S1_COEFFS : list float := F32.of_dec8 <$> S1_COEFFS_dec.
Definition S2_COEFFS_RAW : list float := F32.of_dec8 <$> S2_COEFFS_RAW_dec.

(** ** The resampler object *)

Record dsp_resampler : Type := Resampler {
  s1_index : Z;
  s1_history : list complex;
  s1_coeffs_rev : list float;
  s1_head : Z;
  s2_coeffs_poly : list (list float);
  s2_history : list complex;
  s2_head : Z;
  s2_phase_state : Z
}.

Definition set_s1_index (v : Z) (r : dsp_resampler) : dsp_resampler :=
  Resampler v (s1_history r) (s1_coeffs_rev r) (s1_head r)
            (s2_coeffs_poly r) (s2_history r) (s2_head r) (s2_phase_state r).
Definition set_s1_history (v : list complex) (r : dsp_resampler) : dsp_resampler :=
  Resampler (s1_index r) v (s1_coeffs_rev r) (s1_head r)
            (s2_coeffs_poly r) (s2_history r) (s2_head r) (s2_phase_state r).
Definition set_s1_coeffs_rev (v : list float) (r : dsp_resampler) : dsp_resampler :=
  Resampler (s1_index r) (s1_history r) v (s1_head r)
            (s2_coeffs_poly r) (s2_history r) (s2_head r) (s2_phase_state r).
Definition set_s1_head (v : Z) (r : dsp_resampler) : dsp_resampler :=
  Resampler (s1_index r) (s1_history r) (s1_coeffs_rev r) v
            (s2_coeffs_poly r) (s2_history r) (s2_head r) (s2_phase_state r).
Definition set_s2_coeffs_poly (v : list (list float)) (r : dsp_resampler) : dsp_resampler :=
  Resampler (s1_index r) (s1_history r) (s1_coeffs_rev r) (s1_head r)
            v (s2_history r) (s2_head r) (s2_phase_state r).
Definition set_s2_history (v : list complex) (r : dsp_resampler) : dsp_resampler :=
  Resampler (s1_index r) (s1_history r) (s1_coeffs_rev r) (s1_head r)
            (s2_coeffs_poly r) v (s2_head r) (s2_phase_state r).
Definition set_s2_head (v : Z) (r : dsp_resampler) : dsp_resampler :=
  Resampler (s1_index r) (s1_history r) (s1_coeffs_rev r) (s1_head r)
            (s2_coeffs_poly r) (s2_history r) v (s2_phase_state r).
Definition set_s2_phase_state (v : Z) (r : dsp_resampler) : dsp_resampler :=
  Resampler (s1_index r) (s1_history r) (s1_coeffs_rev r) (s1_head r)
            (s2_coeffs_poly r) (s2_history r) (s2_head r) v.

(** The destination of [process]: the memory behind [out_buffer], indexed
    from the pointer, and the running count [out_produced]. *)
Record out_state : Type := OutState {
  out_buffer : gmap nat complex;
  out_produced : nat
}.

(** [for (int i = lo; i < hi; i++) body] as a left fold over [lo .. hi-1]. *)
Definition for_loop {S : Type} (lo hi : Z) (body : Z -> S -> S) (s : S) : S :=
  foldl (fun s i => body i s) s (seqZ lo (hi - lo)).

(** [a[i]] and [a[i] = v] on an array held as a list. *)
Definition rd {A : Type} `{Inhabited A} (a : list A) (i : Z) : A := a !!! Z.to_nat i.
Definition wr {A : Type} (a : list A) (i : Z) (v : A) : list A := <[Z.to_nat i := v]> a.

(** [s2_coeffs_poly[phase][tap] = v] *)
Definition wr2 (a : list (list float)) (phase tap : Z) (v : float) : list (list float) :=
  wr a phase (wr (rd a phase) tap v).

(** *** [dsp_resampler::reset] *)
Definition reset (r : dsp_resampler) : dsp_resampler :=
  let r := set_s1_index 0 r in
  let r := set_s1_head 0 r in
  let r := set_s1_history (replicate (Z.to_nat (2 * S1_TAPS)) c0) r in
  let r := set_s2_head 0 r in
  let r := set_s2_phase_state 0 r in
  set_s2_history (replicate (Z.to_nat (2 * S2_TAPS_PER_PHASE)) c0) r.

(** *** The constructor

    [mem] is the storage the object is built in; the constructor writes
    every coefficient slot and resets the rest, so nothing of [mem] but
    its layout matters. *)
Definition ctor (mem : dsp_resampler) : dsp_resampler :=
  let r := reset mem in
  let r :=
    for_loop 0 S1_TAPS (fun i r =>
      set_s1_coeffs_rev (wr (s1_coeffs_rev r) i (rd S1_COEFFS (S1_TAPS - 1 - i))) r) r in
  for_loop 0 S2_PHASES (fun phase r =>
    for_loop 0 S2_TAPS_PER_PHASE (fun tap r =>
      let raw_idx := phase + tap * S2_PHASES in
      if raw_idx <? S2_TAPS_TOTAL then
        set_s2_coeffs_poly
          (wr2 (s2_coeffs_poly r) phase (S2_TAPS_PER_PHASE - 1 - tap) (rd S2_COEFFS_RAW raw_idx)) r
      else
        set_s2_coeffs_poly
          (wr2 (s2_coeffs_poly r) phase (S2_TAPS_PER_PHASE - 1 - tap) F32.zero) r) r) r.

(** The layout the class declaration gives the four arrays. *)
Record layout (r : dsp_resampler) : Prop := {
  layout_s1_history : length (s1_history r) = 122%nat;
  layout_s1_coeffs_rev : length (s1_coeffs_rev r) = 61%nat;
  layout_s2_coeffs_poly : length (s2_coeffs_poly r) = 13%nat;
  layout_s2_branch : Forall (fun b => length b = 57%nat) (s2_coeffs_poly r);
  layout_s2_history : length (s2_history r) = 114%nat
}.

(** *** The two convolution loops

    [acc_r += h_ptr[k].real() * c_ptr[k]; acc_i += h_ptr[k].imag() * c_ptr[k]]
    for [k] from 0 to [taps - 1], with [h_ptr = &history[head]]. *)
Definition convolve (history : list complex) (head : Z) (coeffs : list float) (taps : Z)
  : complex :=
  let acc :=
    for_loop 0 taps (fun k (acc : float * float) =>
      (F32.add (fst acc) (F32.mul (real (rd history (head + k))) (rd coeffs k)),
       F32.add (snd acc) (F32.mul (imag (rd history (head + k))) (rd coeffs k))))
      (F32.zero, F32.zero) in
  Complex (fst acc) (snd acc).

(** *** [dsp_resampler::push_stage2] *)

(** How the emission loop was left: by its condition, or by the [return]
    taken when the output buffer is full. *)
Inductive loop_exit : Type := LoopDone | BufferFull.

Equations? s2_emit (out_cap : nat) (r : dsp_resampler) (o : out_state)
  : loop_exit * dsp_resampler * out_state
  by wf (Z.to_nat (S2_INTERP - s2_phase_state r)) lt :=
  s2_emit out_cap r o with Z_lt_dec (s2_phase_state r) S2_INTERP => {
    | right _ := (LoopDone, r, o);
    | left _ with le_dec out_cap (out_produced o) => {
      | left _ := (BufferFull, r, o);
      | right _ :=
          let y := convolve (s2_history r) (s2_head r)
                            (rd (s2_coeffs_poly r) (s2_phase_state r)) S2_TAPS_PER_PHASE in
          let o' := OutState (<[out_produced o := y]> (out_buffer o)) (S (out_produced o)) in
          s2_emit out_cap (set_s2_phase_state (s2_phase_state r + S2_DECIM) r) o' } }.
Proof. simpl. unfold S2_INTERP, S2_DECIM in *. lia. Qed.

Definition push_stage2 (sample : complex) (out_cap : nat) (r : dsp_resampler) (o : out_state)
  : dsp_resampler * out_state :=
  let r := set_s2_history (wr (s2_history r) (s2_head r) sample) r in
  let r := set_s2_history (wr (s2_history r) (s2_head r + S2_TAPS_PER_PHASE) sample) r in
  let r := set_s2_head (s2_head r + 1) r in
  let r := if Z_le_dec S2_TAPS_PER_PHASE (s2_head r) then set_s2_head 0 r else r in
  match s2_emit out_cap r o with
  | (BufferFull, r, o) => (r, o)
  | (LoopDone, r, o) => (set_s2_phase_state (s2_phase_state r - S2_INTERP) r, o)
  end.

(** *** [dsp_resampler::push_stage1]

    [stage1] is the body of [push_stage1] up to the call of [push_stage2];
    its second component is the argument of that call when the call is
    made. *)
Definition stage1 (sample : complex) (r : dsp_resampler) : dsp_resampler * option complex :=
  let r := set_s1_history (wr (s1_history r) (s1_head r) sample) r in
  let r := set_s1_history (wr (s1_history r) (s1_head r + S1_TAPS) sample) r in
  let r := set_s1_head (s1_head r + 1) r in
  let r := if Z_le_dec S1_TAPS (s1_head r) then set_s1_head 0 r else r in
  let r := set_s1_index (s1_index r + 1) r in
  if Z_le_dec S1_DECIMATION (s1_index r) then
    let r := set_s1_index 0 r in
    (r, Some (convolve (s1_history r) (s1_head r) (s1_coeffs_rev r) S1_TAPS))
  else (r, None).

Definition push_stage1 (sample : complex) (out_cap : nat) (r : dsp_resampler) (o : out_state)
  : dsp_resampler * out_state :=
  match stage1 sample r with
  | (r, Some y) => push_stage2 y out_cap r o
  | (r, None) => (r, o)
  end.

(** *** [dsp_resampler::process]

    The input pointer and [in_count] are the list [ins]. *)
Fixpoint process_loop (ins : list complex) (out_cap : nat) (r : dsp_resampler) (o : out_state)
  : dsp_resampler * out_state :=
  match ins with
  | [] => (r, o)
  | x :: rest =>
      let '(r, o) := push_stage1 x out_cap r o in
      if le_dec out_cap (out_produced o) then (r, o)
      else process_loop rest out_cap r o
  end.

Definition process (r : dsp_resampler) (ins : list complex)
    (out : gmap nat complex) (out_cap : nat) : dsp_resampler * gmap nat complex * nat :=
  let '(r, o) := process_loop ins out_cap r (OutState out 0) in
  (r, out_buffer o, out_produced o).


(** *** Auxiliary definitions for the constructor

    The loops of the constructor, run on the coefficient arrays alone. *)

(** The value the constructor stores for branch [phase], tap [tap]. *)
Definition branch_tap (phase tap : Z) : float :=
  if phase + tap * S2_PHASES <? S2_TAPS_TOTAL
  then rd S2_COEFFS_RAW (phase + tap * S2_PHASES)
  else F32.zero.

Definition fill_s1_coeffs (a : list float) : list float :=
  for_loop 0 S1_TAPS (fun i a => wr a i (rd S1_COEFFS (S1_TAPS - 1 - i))) a.

Definition fill_branch (phase : Z) (a : list (list float)) : list (list float) :=
  for_loop 0 S2_TAPS_PER_PHASE
    (fun tap a => wr2 a phase (S2_TAPS_PER_PHASE - 1 - tap) (branch_tap phase tap)) a.

Definition fill_poly (a : list (list float)) : list (list float) :=
  for_loop 0 S2_PHASES fill_branch a.

(** Thirteen branches of fifty-seven taps. *)
Definition bank_shape (a : list (list float)) : Prop :=
  length a = 13%nat /\ Forall (fun b => length b = 57%nat) a.


(** *** Invariants of the running resampler *)

(** [h[k] == h[k + n]] for every [k] in [0, n): the history is stored twice. *)
Definition double_stored (h : list complex) (n : Z) : Prop :=
  forall k, 0 <= k < n -> rd h k = rd h (k + n).

Record s1_invariant (r : dsp_resampler) : Prop := {
  s1_inv_index : 0 <= s1_index r < 5;
  s1_inv_head : 0 <= s1_head r < 61;
  s1_inv_double : double_stored (s1_history r) 61
}.

Record s2_invariant (r : dsp_resampler) : Prop := {
  s2_inv_head : 0 <= s2_head r < 57;
  s2_inv_phase : 0 <= s2_phase_state r < 24;
  s2_inv_double : double_stored (s2_history r) 57
}.

(** What the constructor leaves in the coefficient arrays. *)
Record coeffs_built (r : dsp_resampler) : Prop := {
  built_s1 : forall i, 0 <= i < 61 -> rd (s1_coeffs_rev r) i = rd S1_COEFFS (60 - i);
  built_s2 : forall p k, 0 <= p < 13 -> 0 <= k < 57 ->
               rd (rd (s2_coeffs_poly r) p) (56 - k) = branch_tap p k
}.

Record invariant (r : dsp_resampler) : Prop := {
  inv_layout : layout r;
  inv_s1 : s1_invariant r;
  inv_s2 : s2_invariant r;
  inv_coeffs : coeffs_built r
}.

(** The states a resampler object passes through: built by the constructor
    in some storage, then reset or fed one sample at a time ([process]
    feeds its input through [push_stage1]). *)
Inductive reachable : dsp_resampler -> Prop :=
| reach_ctor mem : layout mem -> reachable (ctor mem)
| reach_reset r : reachable r -> reachable (reset r)
| reach_push r x out_cap o :
    reachable r -> reachable (fst (push_stage1 x out_cap r o)).

(** The first four statements of [push_stage2]: the double store. *)
Definition s2_store (sample : complex) (r : dsp_resampler) : dsp_resampler :=
  let r := set_s2_history (wr (s2_history r) (s2_head r) sample) r in
  let r := set_s2_history (wr (s2_history r) (s2_head r + S2_TAPS_PER_PHASE) sample) r in
  let r := set_s2_head (s2_head r + 1) r in
  if Z_le_dec S2_TAPS_PER_PHASE (s2_head r) then set_s2_head 0 r else r.

(** *** The dot product of the specification

    A forward scan over a window of samples and a row of taps, each
    product added to the running sum in turn, starting from [0.0f]. *)
Definition mac (acc : float) (xc : float * float) : float :=
  F32.add acc (F32.mul (fst xc) (snd xc)).

Definition dot_product (xs cs : list float) : float :=
  foldl mac F32.zero (zip xs cs).

(** The [n] samples [history[head .. head + n - 1]]. *)
Definition window (history : list complex) (head n : Z) : list complex :=
  take (Z.to_nat n) (drop (Z.to_nat head) history).

Definition fir (w : list complex) (taps : list float) : complex :=
  Complex (dot_product (real <$> w) taps) (dot_product (imag <$> w) taps).

(** Rounded-up quotient of non-negative integers. *)
Definition ceil_div (a b : Z) : Z := (a + b - 1) / b.

(** *** Predicates on the destination and on silent states *)

(** What a piece of code may do to the destination when the count starts
    at or below the capacity: the count only grows, stays within the
    capacity, and no slot at or past the capacity, nor any slot already
    counted, is written. *)
Definition out_extends (out_cap : nat) (o o' : out_state) : Prop :=
  (out_produced o <= out_produced o')%nat /\
  (out_produced o' <= out_cap)%nat /\
  forall i : nat, (i < out_produced o \/ out_cap <= i)%nat ->
    out_buffer o' !! i = out_buffer o !! i.

(** A float that is neither an infinity nor a NaN. *)
Definition finite (c : float) : Prop := F32.is_finite c = true.

(** A zero of either sign, and a sample whose two parts are such zeros. *)
Definition is_zero (x : float) : bool :=
  match x with S754_zero _ => true | _ => false end.

Definition zero_valued (x : complex) : Prop :=
  is_zero (real x) = true /\ is_zero (imag x) = true.

(** The Stage-1 history holds nothing but zeros, of either sign, and the
    Stage-2 history nothing but [+0 + 0i]. *)
Definition quiet (r : dsp_resampler) : Prop :=
  Forall zero_valued (s1_history r) /\ Forall (eq c0) (s2_history r).

(** Every output counted so far is [0 + 0i]. *)
Definition zeros_out (o : out_state) : Prop :=
  forall i : nat, (i < out_produced o)%nat -> out_buffer o !! i = Some c0.

(** A block of storage with the right layout, holding no usable value. *)
Definition mem0 : dsp_resampler :=
  Resampler 7 (replicate 122 (Complex (S754_infinity true) S754_nan))
            (replicate 61 S754_nan) 99
            (replicate 13 (replicate 57 S754_nan))
            (replicate 114 (Complex S754_nan S754_nan)) (-3) 1000.

Definition one : complex := Complex (F32.of_int 1) F32.zero.

(** ** The ring buffer *)

(** Modelled from the spec: [circular_buffer.cc] is not among the sources,
    only the class declaration in [circular_buffer.h].  The buffer is held
    as the FIFO of its items, oldest first, with its capacity in items and
    its overwrite mode (section 4.2 of the specification). *)
Record circular_buffer : Type := CircularBuffer {
  cb_items : list complex;
  m_buf_len : nat;
  m_overwrite : bool
}.

Definition set_cb_items (v : list complex) (b : circular_buffer) : circular_buffer :=
  CircularBuffer v (m_buf_len b) (m_overwrite b).

(** Modelled from the spec: the accessors [data_available] and
    [space_available], in items. *)
Definition data_available (b : circular_buffer) : nat := length (cb_items b).
Definition space_available (b : circular_buffer) : nat := m_buf_len b - length (cb_items b).

(** Modelled from the spec: [write(src, n)] appends up to [n] items and
    returns the number written.  In non-overwrite mode it stops at the free
    space; in overwrite mode it discards the oldest items as needed and
    always writes all [n]. *)
Definition write (src : list complex) (b : circular_buffer) : circular_buffer * nat :=
  if m_overwrite b then
    let all := cb_items b ++ src in
    (set_cb_items (drop (length all - m_buf_len b) all) b, length src)
  else
    let n := Nat.min (length src) (space_available b) in
    (set_cb_items (cb_items b ++ take n src) b, n).

(** ** The source adapter of [iio_source.cc] *)

(** The fields of [iio_source] that the worker and [fill] use.  A pointer
    is kept as what it points to, or as whether it is null when only that
    is looked at. *)
Record iio_source : Type := IioSource {
  m_dev : bool;
  m_rxbuf : bool;
  cb : option circular_buffer;
  streaming : bool;
  m_overflow_count : Z;
  m_resampler : dsp_resampler
}.

Definition set_m_rxbuf (v : bool) (s : iio_source) : iio_source :=
  IioSource (m_dev s) v (cb s) (streaming s) (m_overflow_count s) (m_resampler s).
Definition set_cb (v : option circular_buffer) (s : iio_source) : iio_source :=
  IioSource (m_dev s) (m_rxbuf s) v (streaming s) (m_overflow_count s) (m_resampler s).
Definition set_streaming (v : bool) (s : iio_source) : iio_source :=
  IioSource (m_dev s) (m_rxbuf s) (cb s) v (m_overflow_count s) (m_resampler s).
Definition set_m_overflow_count (v : Z) (s : iio_source) : iio_source :=
  IioSource (m_dev s) (m_rxbuf s) (cb s) (streaming s) v (m_resampler s).
Definition set_m_resampler (v : dsp_resampler) (s : iio_source) : iio_source :=
  IioSource (m_dev s) (m_rxbuf s) (cb s) (streaming s) (m_overflow_count s) v.

Definition BATCH_SIZE : Z := 32768.

(** [m_overflow_count += n] on [std::atomic<unsigned int>]. *)
Definition uint_add (c n : Z) : Z := (c + n) mod 2 ^ 32.

(** [const float scale = 1.0f / 2048.0f] *)
Definition scale : float := F32.div (F32.of_int 1) (F32.of_int 2048).

(** [std::complex<float>(i * scale, q * scale)] for one [int16] pair. *)
Definition to_complex (iq : Z * Z) : complex :=
  Complex (F32.mul (F32.of_int (fst iq)) scale) (F32.mul (F32.of_int (snd iq)) scale).

(** The conversion loop
    [for (p = start; p < end && count < BATCH_SIZE; p += step)]
    over the samples of the refilled chunk.  The result lists what the
    loop stores from [m_batch_buffer[count]] on; the final [count] is the
    start value plus its length. *)
Fixpoint convert_batch (chunk : list (Z * Z)) (count : Z) : list complex :=
  match chunk with
  | [] => []
  | iq :: rest =>
      if count <? BATCH_SIZE
      then to_complex iq :: convert_batch rest (count + 1)
      else []
  end.

(** [out_buf[0 .. n-1]], as [cb->write(out_buf, n)] reads it. *)
Definition read_out (out_buf : gmap nat complex) (n : nat) : list complex :=
  (fun i => out_buf !!! i) <$> seq 0 n.

(** The call of the resampler in one iteration of the worker loop. *)
Definition worker_process (chunk : list (Z * Z)) (s : iio_source)
  : dsp_resampler * gmap nat complex * nat :=
  process (m_resampler s) (convert_batch chunk 0) ∅ (Z.to_nat BATCH_SIZE).

(** One iteration of the loop of [iio_source::worker_thread], after a
    successful refill that delivered [chunk]; [lock_acquired] is the result
    of [lock.try_lock()], looked at only when something was produced. *)
Definition worker_iteration (chunk : list (Z * Z)) (lock_acquired : bool) (s : iio_source)
  : iio_source :=
  let '(r, out_buf, produced) := worker_process chunk s in
  let s := set_m_resampler r s in
  if decide (0 < produced)%nat then
    if lock_acquired then
      match cb s with
      | Some b =>
          let '(b, written) := write (read_out out_buf produced) b in
          let s := set_cb (Some b) s in
          if decide (written < produced)%nat
          then set_m_overflow_count
                 (uint_add (m_overflow_count s) (Z.of_nat (produced - written))) s
          else s
      | None => s
      end
    else set_m_overflow_count (uint_add (m_overflow_count s) (Z.of_nat produced)) s
  else s.

(** [iio_source::start]; [create_ok] tells whether the driver could create
    its buffer.  The result carries the return value.  This is [start] as
    [fill] calls it, the only call of it in the sources: with [streaming]
    false, so that no earlier worker is left to be joined, and with the
    ring buffer in place, so that [close] has not destroyed the context
    [m_dev] belongs to.  Outside these conditions the source assigns to a
    joinable [std::thread] or hands a dangling [m_dev] to the driver, and
    nothing is stated here about such calls. *)
Definition start (create_ok : bool) (s : iio_source) : iio_source * Z :=
  if negb (m_dev s) then (s, -1)
  else
    let s := set_m_resampler (reset (m_resampler s)) s in
    let s := set_m_overflow_count 0 s in
    let s := set_m_rxbuf create_ok s in
    if negb (m_rxbuf s) then (s, -1)
    else (set_streaming true s, 0).

(** [iio_source::stop] *)
Definition stop (s : iio_source) : iio_source :=
  if streaming s then set_m_rxbuf false (set_streaming false s) else s.

(** The source together with the global exit flag [g_kal_exit_req]. *)
Record world : Type := World {
  source : iio_source;
  g_kal_exit_req : bool
}.

(** [sighandler] of [kal.cc], on the flag [g_kal_exit_req]: the first
    signal sets the flag; a signal that finds it set ends the process with
    [_exit(1)], shown as [None]. *)
Definition sighandler (flag : bool) : option bool :=
  if flag then None else Some true.

(** What the other threads do while [fill] is suspended in [wait_for]:
    iterations of the worker loop, the signal handler, a call of [stop].
    An event is taken as a whole.  [Worker] is one iteration from its test
    of [streaming] on.  [Stop] is a call of [stop] by another thread; the
    iteration the worker is in when [streaming] is stored false does not
    look at [streaming] again and [stop] writes none of the fields the
    iteration writes, so that iteration is listed before [Stop] when it
    ends before the next poll of [fill], and left out when [fill] has
    returned by then. *)
Inductive event : Type :=
| Worker (chunk : list (Z * Z)) (lock_acquired : bool)
| Sigint
| Stop.

(** The world after an event, or [None] when the event ends the process. *)
Definition run_event (w : world) (e : event) : option world :=
  match e with
  | Worker chunk lock_acquired =>
      if streaming (source w)
      then Some (World (worker_iteration chunk lock_acquired (source w)) (g_kal_exit_req w))
      else Some w
  | Sigint =>
      match sighandler (g_kal_exit_req w) with
      | Some flag => Some (World (source w) flag)
      | None => None
      end
  | Stop => Some (World (stop (source w)) (g_kal_exit_req w))
  end.

Fixpoint run_events (w : world) (evs : list event) : option world :=
  match evs with
  | [] => Some w
  | e :: evs =>
      match run_event w e with
      | Some w => run_events w evs
      | None => None
      end
  end.

(** The environment of one call of [fill]: the events of each suspension. *)
Fixpoint run_env (w : world) (env : list (list event)) : option world :=
  match env with
  | [] => Some w
  | evs :: env =>
      match run_events w evs with
      | Some w => run_env w env
      | None => None
      end
  end.

(** [cb->data_available()] *)
Definition available (w : world) : Z :=
  match cb (source w) with
  | Some b => Z.of_nat (data_available b)
  | None => 0
  end.

(** How the waiting loop of [fill] is left. *)
Inductive wait_exit : Type := ExitRequested | Proceed.

(** The loop [while (true)] of [fill]; [None] when the loop is not left:
    the events listed in [env] are used up and the loop is about to wait
    again, or a second signal has ended the process during a wait. *)
Fixpoint fill_wait (num_samples : Z) (env : list (list event)) (w : world)
  : option (wait_exit * world) :=
  if g_kal_exit_req w then Some (ExitRequested, w)
  else if (num_samples <=? available w) || negb (streaming (source w)) then Some (Proceed, w)
  else
    match env with
    | [] => None
    | evs :: env =>
        match run_events w evs with
        | Some w => fill_wait num_samples env w
        | None => None
        end
    end.

(** The statement [if (!streaming.load()) start();] *)
Definition ensure_started (create_ok : bool) (w : world) : world :=
  if negb (streaming (source w))
  then World (fst (start create_ok (source w))) (g_kal_exit_req w)
  else w.

(** [iio_source::fill].  [overruns] tells whether the pointer is non-null.
    The result is the return value, the value stored through [overruns] if
    one is stored, and the world at return; [None] when [fill] does not
    return. *)
Definition fill (num_samples : Z) (overruns : bool) (create_ok : bool)
    (env : list (list event)) (w : world) : option (Z * option Z * world) :=
  match cb (source w) with
  | None => Some (-1, None, w)
  | Some _ =>
      let w := ensure_started create_ok w in
      match fill_wait num_samples env w with
      | None => None
      | Some (ExitRequested, w) => Some (-1, None, w)
      | Some (Proceed, w) =>
          if negb (streaming (source w)) then Some (-1, None, w)
          else if overruns then
            Some (0, Some (m_overflow_count (source w)),
                  World (set_m_overflow_count 0 (source w)) (g_kal_exit_req w))
          else Some (0, None, w)
      end
  end.

(** Whether a poll of the waiting loop leaves the loop. *)
Definition ready (num_samples : Z) (w : world) : bool :=
  g_kal_exit_req w || (num_samples <=? available w) || negb (streaming (source w)).

(** The ring buffer exists while the worker runs.  [start] is called by
    [fill] only, after [if (!cb) return -1;], and [cb] is deleted by
    [close] only, after [stop] has joined the worker. *)
Definition buffer_while_streaming (s : iio_source) : Prop :=
  streaming s = true -> cb s <> None.

(** A source after [open] and [start], with room for [n] items. *)
Definition source_open (n : nat) : iio_source :=
  IioSource true true (Some (CircularBuffer [] n false)) true 0 (ctor mem0).

Definition chunk5 : list (Z * Z) := [(2047, 0); (100, -100); (-2048, 5); (7, 7); (0, 1)].

(** ** The resampler as a function on streams

    [step] is what one call of [push_stage1] does to the resampler when the
    output buffer has room, together with the sample it writes, if any;
    [run] feeds a list of samples and collects what is written. *)
Definition step (x : complex) (r : dsp_resampler) : dsp_resampler * option complex :=
  match stage1 x r with
  | (r, None) => (r, None)
  | (r, Some y) =>
      let r := s2_store y r in
      if Z_lt_dec (s2_phase_state r) S2_INTERP then
        (set_s2_phase_state (s2_phase_state r + S2_DECIM - S2_INTERP) r,
         Some (convolve (s2_history r) (s2_head r)
                        (rd (s2_coeffs_poly r) (s2_phase_state r)) S2_TAPS_PER_PHASE))
      else (set_s2_phase_state (s2_phase_state r - S2_INTERP) r, None)
  end.

Fixpoint run (xs : list complex) (r : dsp_resampler) : dsp_resampler * list complex :=
  match xs with
  | [] => (r, [])
  | x :: xs =>
      let '(r1, y) := step x r in
      let '(r2, ys) := run xs r1 in
      (r2, option_list y ++ ys)
  end.

(** [out_buffer[out_produced++] = y] *)
Definition put (o : out_state) (y : complex) : out_state :=
  OutState (<[out_produced o := y]> (out_buffer o)) (S (out_produced o)).

Definition put_all (o : out_state) (ys : list complex) : out_state := foldl put o ys.

(** ** More of the source adapter *)

(** How the loop of [worker_thread] stands after a number of refills: still
    running, left because [streaming] was found false, or left by the
    [break] taken when the driver's refill fails. *)
Inductive worker_status : Type := WorkerRunning | WorkerStopped | WorkerFailed.

(** [iio_source::worker_thread], one entry of [refills] per call of
    [iio_buffer_refill]: [None] for a negative byte count, otherwise the
    chunk delivered and the result of the try-lock of that iteration. *)
Fixpoint worker_thread (refills : list (option (list (Z * Z) * bool))) (s : iio_source)
  : worker_status * iio_source :=
  match refills with
  | [] => (if streaming s then WorkerRunning else WorkerStopped, s)
  | refill :: rest =>
      if streaming s then
        match refill with
        | None => (WorkerFailed, s)
        | Some (chunk, lock_acquired) =>
            worker_thread rest (worker_iteration chunk lock_acquired s)
        end
      else (WorkerStopped, s)
  end.

(** [iio_source::close]: [stop()], then the driver buffer and the context
    are destroyed and the ring buffer is deleted.  The context [m_ctx] is
    not among the fields kept in [iio_source]; [m_dev] is not assigned. *)
Definition close (s : iio_source) : iio_source :=
  set_cb None (set_m_rxbuf false (stop s)).

(** ** [float_comp] of [util.cc], the comparison handed to [qsort] *)
Definition float_comp (f1 f2 : float) : Z :=
  if SFltb f1 f2 then -1
  else if SFltb f2 f1 then 1
  else 0.






(** The events that end a wait of [fill]. *)
Definition is_sigint (e : event) : bool :=
  match e with Sigint => true | _ => false end.

Definition is_stop (e : event) : bool :=
  match e with Stop => true | _ => false end.

(** * Properties *)

(** ** The coefficient tables (C9) *)

(** The first Stage-1 tap, [-0.00031204f], is the binary32 number
    [-10721613 * 2^-35] (bit pattern [0xb9a3994d]); the centre tap of the
    Stage-2 prototype, [0.45992685f], is [15432584 * 2^-25]
    ([0x3eeb7b88]). *)
Example S1_COEFFS_first : S1_COEFFS !! 0%nat = Some (S754_finite true 10721613 (-35)).
Proof. vm_compute. reflexivity. Qed.

Example S2_COEFFS_RAW_centre :
  S2_COEFFS_RAW !! 364%nat = Some (S754_finite false 15432584 (-25)).
Proof. vm_compute. reflexivity. Qed.

(** C9. The 61 Stage-1 coefficients and the 729 coefficients of the
    Stage-2 prototype, as single-precision values, each read the same from
    either end. *)
Theorem coeff_tables_symmetric :
  length S1_COEFFS = 61%nat /\ reverse S1_COEFFS = S1_COEFFS /\
  length S2_COEFFS_RAW = 729%nat /\ reverse S2_COEFFS_RAW = S2_COEFFS_RAW.
Proof. repeat split; vm_compute; reflexivity. Qed.
(** ** Arrays and loops *)

Section Arrays.
Context {A : Type} `{Inhabited A}.
Implicit Types (a : list A) (i j : Z) (v : A).

Lemma length_wr a i v : length (wr a i v) = length a.
Proof. apply length_insert. Qed.

Lemma rd_wr_eq a i v :
  0 <= i < Z.of_nat (length a) -> rd (wr a i v) i = v.
Proof.
  intros Hi. unfold rd, wr. apply list_lookup_total_insert_eq. lia.
Qed.

Lemma rd_wr_ne a i j v :
  0 <= i -> 0 <= j -> i <> j -> rd (wr a i v) j = rd a j.
Proof.
  intros Hi Hj Hij. unfold rd, wr. apply list_lookup_total_insert_ne. lia.
Qed.

Lemma rd_lookup a i :
  0 <= i < Z.of_nat (length a) -> a !! Z.to_nat i = Some (rd a i).
Proof.
  intros Hi. unfold rd. apply list_lookup_lookup_total_lt. lia.
Qed.

Lemma Forall_rd (P : A -> Prop) a i :
  Forall P a -> 0 <= i < Z.of_nat (length a) -> P (rd a i).
Proof.
  intros HP Hi. eapply Forall_lookup_1; [exact HP | apply rd_lookup, Hi].
Qed.

Lemma Forall_wr (P : A -> Prop) a i v :
  Forall P a -> P v -> Forall P (wr a i v).
Proof. intros HP Hv. unfold wr. by apply Forall_insert. Qed.
End Arrays.

Section Loops.
Context {S : Type}.
Implicit Types (body : Z -> S -> S) (s : S).

Lemma for_loop_last lo hi body s :
  lo <= hi ->
  for_loop lo (hi + 1) body s = body hi (for_loop lo hi body s).
Proof.
  intros Hle. unfold for_loop.
  replace (hi + 1 - lo) with ((hi - lo) + 1) by lia.
  rewrite seqZ_app by lia. rewrite foldl_app.
  replace (lo + (hi - lo)) with hi by lia. reflexivity.
Qed.

(** Hoare-style rule: an invariant indexed by the loop counter. *)
Lemma for_loop_invariant (P : Z -> S -> Prop) lo hi body s :
  lo <= hi ->
  P lo s ->
  (forall i s', lo <= i < hi -> P i s' -> P (i + 1) (body i s')) ->
  P hi (for_loop lo hi body s).
Proof.
  intros Hle H0 Hstep.
  assert (Hgen : forall n : nat, lo + Z.of_nat n <= hi ->
                   P (lo + Z.of_nat n) (for_loop lo (lo + Z.of_nat n) body s)).
  { induction n as [|n IH]; intros Hn.
    - replace (lo + Z.of_nat 0) with lo by lia.
      unfold for_loop. replace (lo - lo) with 0 by lia. exact H0.
    - replace (lo + Z.of_nat (Datatypes.S n)) with (lo + Z.of_nat n + 1) by lia.
      rewrite for_loop_last by lia. apply Hstep; [lia | apply IH; lia]. }
  specialize (Hgen (Z.to_nat (hi - lo))).
  replace (lo + Z.of_nat (Z.to_nat (hi - lo))) with hi in Hgen by lia.
  apply Hgen. lia.
Qed.

(** A loop whose body only rewrites one field runs on that field alone. *)
Lemma for_loop_field {F : Type} (get : S -> F) (set : F -> S -> S)
      (g : Z -> F -> F) lo hi body s :
  (forall v s', get (set v s') = v) ->
  (forall v w s', set v (set w s') = set v s') ->
  (forall s', set (get s') s' = s') ->
  (forall i s', body i s' = set (g i (get s')) s') ->
  for_loop lo hi body s = set (for_loop lo hi g (get s)) s.
Proof.
  intros Hgs Hss Hsg Hbody. unfold for_loop.
  generalize (seqZ lo (hi - lo)) as l. intros l. revert s.
  induction l as [|i l IH]; intros s; simpl.
  - symmetry. apply Hsg.
  - rewrite IH, Hbody, Hgs, Hss. reflexivity.
Qed.
End Loops.

(** ** The constructor *)

#[global] Arguments S1_COEFFS : simpl never.
#[global] Arguments S2_COEFFS_RAW : simpl never.
#[global] Arguments for_loop : simpl never.
#[global] Arguments convolve : simpl never.

Lemma set_s1_coeffs_rev_id r : set_s1_coeffs_rev (s1_coeffs_rev r) r = r.
Proof. by destruct r. Qed.

Lemma set_s2_coeffs_poly_id r : set_s2_coeffs_poly (s2_coeffs_poly r) r = r.
Proof. by destruct r. Qed.

Lemma ctor_s1_loop r :
  for_loop 0 S1_TAPS (fun i r =>
    set_s1_coeffs_rev (wr (s1_coeffs_rev r) i (rd S1_COEFFS (S1_TAPS - 1 - i))) r) r
  = set_s1_coeffs_rev (fill_s1_coeffs (s1_coeffs_rev r)) r.
Proof.
  unfold fill_s1_coeffs.
  apply (for_loop_field s1_coeffs_rev set_s1_coeffs_rev); try done.
  apply set_s1_coeffs_rev_id.
Qed.

Lemma ctor_branch_loop phase r :
  for_loop 0 S2_TAPS_PER_PHASE (fun tap r =>
    let raw_idx := phase + tap * S2_PHASES in
    if raw_idx <? S2_TAPS_TOTAL then
      set_s2_coeffs_poly
        (wr2 (s2_coeffs_poly r) phase (S2_TAPS_PER_PHASE - 1 - tap) (rd S2_COEFFS_RAW raw_idx)) r
    else
      set_s2_coeffs_poly
        (wr2 (s2_coeffs_poly r) phase (S2_TAPS_PER_PHASE - 1 - tap) F32.zero) r) r
  = set_s2_coeffs_poly (fill_branch phase (s2_coeffs_poly r)) r.
Proof.
  unfold fill_branch.
  apply (for_loop_field s2_coeffs_poly set_s2_coeffs_poly); try done.
  - apply set_s2_coeffs_poly_id.
  - intros tap r'. unfold branch_tap. simpl. by destruct (_ <? _).
Qed.

Lemma ctor_fields mem :
  ctor mem =
  set_s2_coeffs_poly (fill_poly (s2_coeffs_poly mem))
    (set_s1_coeffs_rev (fill_s1_coeffs (s1_coeffs_rev mem)) (reset mem)).
Proof.
  unfold ctor. rewrite ctor_s1_loop. unfold fill_poly.
  etrans.
  - apply (for_loop_field s2_coeffs_poly set_s2_coeffs_poly fill_branch); try done.
    + apply set_s2_coeffs_poly_id.
    + intros phase r. apply ctor_branch_loop.
  - reflexivity.
Qed.

Lemma fill_s1_coeffs_spec (a : list float) :
  length a = 61%nat ->
  length (fill_s1_coeffs a) = 61%nat /\
  forall i, 0 <= i < 61 -> rd (fill_s1_coeffs a) i = rd S1_COEFFS (60 - i).
Proof.
  intros Hlen. unfold fill_s1_coeffs.
  apply (for_loop_invariant
           (fun n (a' : list float) =>
              length a' = 61%nat /\
              forall i, 0 <= i < n -> rd a' i = rd S1_COEFFS (60 - i))).
  - unfold S1_TAPS. lia.
  - split; [exact Hlen | intros i Hi; lia].
  - intros n a' Hn [Hlen' Hrd]. unfold S1_TAPS in Hn.
    split; [by rewrite length_wr |].
    intros i Hi. destruct (Z.eq_dec i n) as [-> | Hne].
    + rewrite rd_wr_eq by lia. unfold S1_TAPS. f_equal; lia.
    + rewrite rd_wr_ne by lia. apply Hrd. lia.
Qed.

Lemma bank_shape_rd a p :
  bank_shape a -> 0 <= p < 13 -> length (rd a p) = 57%nat.
Proof.
  intros [Hlen Hall] Hp. apply (Forall_rd (fun b => length b = 57%nat)); [done | lia].
Qed.

Lemma bank_shape_wr2 a p t v :
  bank_shape a -> 0 <= p < 13 -> bank_shape (wr2 a p t v).
Proof.
  intros Ha Hp. pose proof (bank_shape_rd a p Ha Hp) as Hb.
  destruct Ha as [Hlen Hall]. unfold wr2. split.
  - by rewrite length_wr.
  - apply Forall_wr; [done | by rewrite length_wr].
Qed.

Lemma fill_branch_spec p a :
  0 <= p < 13 -> bank_shape a ->
  bank_shape (fill_branch p a) /\
  (forall k, 0 <= k < 57 -> rd (rd (fill_branch p a) p) (56 - k) = branch_tap p k) /\
  (forall q, 0 <= q -> q <> p -> rd (fill_branch p a) q = rd a q).
Proof.
  intros Hp Ha. unfold fill_branch.
  apply (for_loop_invariant
           (fun n a' =>
              bank_shape a' /\
              (forall k, 0 <= k < n -> rd (rd a' p) (56 - k) = branch_tap p k) /\
              (forall q, 0 <= q -> q <> p -> rd a' q = rd a q))).
  - unfold S2_TAPS_PER_PHASE. lia.
  - split; [exact Ha | split; [intros k Hk; lia | done]].
  - intros n a' Hn (Ha' & Hdone & Hother). unfold S2_TAPS_PER_PHASE in *.
    pose proof (bank_shape_rd a' p Ha' Hp) as Hb.
    split; [by apply bank_shape_wr2 |]. split.
    + intros k Hk. unfold wr2. rewrite rd_wr_eq by (destruct Ha'; lia).
      destruct (Z.eq_dec k n) as [-> | Hne].
      * rewrite rd_wr_eq by lia. reflexivity.
      * rewrite rd_wr_ne by lia. apply Hdone. lia.
    + intros q Hq Hqp. unfold wr2. rewrite rd_wr_ne by lia. by apply Hother.
Qed.

Lemma fill_poly_spec a :
  bank_shape a ->
  bank_shape (fill_poly a) /\
  forall p k, 0 <= p < 13 -> 0 <= k < 57 ->
    rd (rd (fill_poly a) p) (56 - k) = branch_tap p k.
Proof.
  intros Ha. unfold fill_poly.
  apply (for_loop_invariant
           (fun n a' =>
              bank_shape a' /\
              forall p k, 0 <= p < n -> 0 <= k < 57 ->
                rd (rd a' p) (56 - k) = branch_tap p k)).
  - unfold S2_PHASES. lia.
  - split; [done | intros p k Hp; lia].
  - intros n a' Hn (Ha' & Hdone). unfold S2_PHASES in Hn.
    destruct (fill_branch_spec n a' Hn Ha') as (Hshape & Hnew & Hold).
    split; [done |]. intros p k Hp Hk.
    destruct (Z.eq_dec p n) as [-> | Hne].
    + by apply Hnew.
    + rewrite Hold by lia. apply Hdone; lia.
Qed.

Lemma layout_reset r : layout r -> layout (reset r).
Proof.
  intros [H1 H2 H3 H4 H5]. split; [reflexivity | exact H2 | exact H3 | exact H4 | reflexivity].
Qed.

Lemma layout_ctor mem : layout mem -> layout (ctor mem).
Proof.
  intros Hl. pose proof (layout_reset mem Hl) as [H1 H2 H3 H4 H5].
  rewrite ctor_fields.
  destruct (fill_s1_coeffs_spec (s1_coeffs_rev mem)) as [Hc _]; [apply Hl |].
  destruct (fill_poly_spec (s2_coeffs_poly mem)) as [[Hp1 Hp2] _].
  { split; apply Hl. }
  split; [exact H1 | exact Hc | exact Hp1 | exact Hp2 | exact H5].
Qed.

(** ** The double store *)

Lemma rd_all_zero (h : list complex) i : Forall (eq c0) h -> rd h i = c0.
Proof.
  intros Hall. unfold rd. rewrite list_lookup_total_alt.
  destruct (h !! Z.to_nat i) as [x|] eqn:Hx; [| reflexivity].
  simpl. symmetry. by eapply Forall_lookup_1.
Qed.

Lemma double_stored_zero (h : list complex) n : Forall (eq c0) h -> double_stored h n.
Proof. intros Hall k _. by rewrite !rd_all_zero. Qed.

Lemma double_stored_wr (h : list complex) n head x :
  Z.of_nat (length h) = 2 * n -> 0 <= head < n ->
  double_stored h n ->
  double_stored (wr (wr h head x) (head + n) x) n.
Proof.
  intros Hlen Hhead Hd k Hk.
  destruct (Z.eq_dec k head) as [-> | Hne].
  - rewrite rd_wr_ne by lia. rewrite rd_wr_eq by lia.
    rewrite rd_wr_eq by (rewrite length_wr; lia). reflexivity.
  - rewrite !rd_wr_ne by lia. by apply Hd.
Qed.

(** ** Stage 2 *)

Lemma s2_emit_step out_cap r o :
  s2_emit out_cap r o =
  if Z_lt_dec (s2_phase_state r) S2_INTERP then
    if le_dec out_cap (out_produced o) then (BufferFull, r, o)
    else
      s2_emit out_cap (set_s2_phase_state (s2_phase_state r + S2_DECIM) r)
        (OutState
           (<[out_produced o :=
                convolve (s2_history r) (s2_head r)
                         (rd (s2_coeffs_poly r) (s2_phase_state r)) S2_TAPS_PER_PHASE]>
              (out_buffer o))
           (S (out_produced o)))
  else (LoopDone, r, o).
Proof.
  rewrite s2_emit_equation_1 at 1.
  destruct (Z_lt_dec _ _); simpl; [| reflexivity].
  destruct (le_dec _ _); reflexivity.
Qed.

Lemma push_stage2_store sample out_cap r o :
  push_stage2 sample out_cap r o =
  match s2_emit out_cap (s2_store sample r) o with
  | (BufferFull, r, o) => (r, o)
  | (LoopDone, r, o) => (set_s2_phase_state (s2_phase_state r - S2_INTERP) r, o)
  end.
Proof. reflexivity. Qed.

(** One call of [push_stage2], when the phase is not negative: the loop
    body runs at most once. *)
Lemma push_stage2_cases sample out_cap r o :
  0 <= s2_phase_state r ->
  push_stage2 sample out_cap r o =
  let r1 := s2_store sample r in
  if Z_lt_dec (s2_phase_state r) S2_INTERP then
    if le_dec out_cap (out_produced o) then (r1, o)
    else
      (set_s2_phase_state (s2_phase_state r + S2_DECIM - S2_INTERP) r1,
       OutState
         (<[out_produced o :=
              convolve (s2_history r1) (s2_head r1)
                       (rd (s2_coeffs_poly r) (s2_phase_state r)) S2_TAPS_PER_PHASE]>
            (out_buffer o))
         (S (out_produced o)))
  else (set_s2_phase_state (s2_phase_state r - S2_INTERP) r1, o).
Proof.
  intros Hp. rewrite push_stage2_store. cbv zeta.
  assert (Hphase : s2_phase_state (s2_store sample r) = s2_phase_state r).
  { unfold s2_store. cbv zeta. by destruct (Z_le_dec _ _). }
  assert (Hpoly : s2_coeffs_poly (s2_store sample r) = s2_coeffs_poly r).
  { unfold s2_store. cbv zeta. by destruct (Z_le_dec _ _). }
  rewrite s2_emit_step. rewrite Hphase, Hpoly.
  destruct (Z_lt_dec _ _) as [Hlt | Hge]; [| by rewrite Hphase].
  destruct (le_dec _ _) as [Hfull | Hroom]; [reflexivity |].
  rewrite s2_emit_step.
  destruct (Z_lt_dec _ _) as [Hlt' | Hge'].
  - exfalso. revert Hlt'. simpl. rewrite ?Hphase. unfold S2_DECIM, S2_INTERP. lia.
  - simpl. rewrite ?Hphase. reflexivity.
Qed.

Lemma s2_store_s1 sample r :
  s1_index (s2_store sample r) = s1_index r /\
  s1_history (s2_store sample r) = s1_history r /\
  s1_head (s2_store sample r) = s1_head r /\
  s1_coeffs_rev (s2_store sample r) = s1_coeffs_rev r /\
  s2_coeffs_poly (s2_store sample r) = s2_coeffs_poly r /\
  s2_phase_state (s2_store sample r) = s2_phase_state r.
Proof. unfold s2_store. cbv zeta. by destruct (Z_le_dec _ _). Qed.

Lemma s2_store_history sample r :
  s2_history (s2_store sample r) =
  wr (wr (s2_history r) (s2_head r) sample) (s2_head r + 57) sample.
Proof. unfold s2_store. cbv zeta. by destruct (Z_le_dec _ _). Qed.

Lemma s2_store_head sample r :
  0 <= s2_head r < 57 -> 0 <= s2_head (s2_store sample r) < 57.
Proof.
  intros Hh. unfold s2_store. cbv zeta.
  destruct (Z_le_dec _ _) as [Hle | Hgt]; simpl in *; unfold S2_TAPS_PER_PHASE in *; lia.
Qed.

Lemma s2_store_double sample r :
  length (s2_history r) = 114%nat -> 0 <= s2_head r < 57 ->
  double_stored (s2_history r) 57 ->
  length (s2_history (s2_store sample r)) = 114%nat /\
  double_stored (s2_history (s2_store sample r)) 57.
Proof.
  intros Hlen Hh Hd. rewrite s2_store_history. split.
  - by rewrite !length_wr.
  - apply double_stored_wr; [lia | done | done].
Qed.

(** ** Invariant preservation *)

Lemma invariant_set_phase p r :
  invariant r -> 0 <= p < 24 -> invariant (set_s2_phase_state p r).
Proof.
  intros [Hl H1 [Hh _ Hd] Hc] Hp. split.
  - destruct Hl. by split.
  - destruct H1. by split.
  - by split.
  - destruct Hc. by split.
Qed.

Lemma invariant_s2_store sample r : invariant r -> invariant (s2_store sample r).
Proof.
  intros [Hl [Hi1 Hh1 Hd1] [Hh Hp Hd] [Hc1 Hc2]].
  destruct (s2_store_s1 sample r) as (E1 & E2 & E3 & E4 & E5 & E6).
  destruct (s2_store_double sample r) as [Hlen' Hd']; [apply Hl | done | done |].
  split.
  - destruct Hl. split; by rewrite ?E2, ?E4, ?E5.
  - split; by rewrite ?E1, ?E2, ?E3.
  - split; [by apply s2_store_head | by rewrite E6 | done].
  - split; by rewrite ?E4, ?E5.
Qed.

Lemma push_stage2_invariant sample out_cap r o :
  invariant r -> invariant (fst (push_stage2 sample out_cap r o)).
Proof.
  intros Hinv. pose proof (inv_s2 r Hinv) as [_ Hp _].
  rewrite push_stage2_cases by lia. cbv zeta.
  pose proof (invariant_s2_store sample r Hinv) as Hst.
  unfold S2_INTERP, S2_DECIM.
  destruct (Z_lt_dec _ _) as [Hlt | Hge].
  - destruct (le_dec _ _); simpl; [done |].
    apply invariant_set_phase; [done | lia].
  - simpl. apply invariant_set_phase; [done | lia].
Qed.

(** The fields after the stage-1 part of [push_stage1]. *)
Lemma stage1_fields sample r :
  let h := wr (wr (s1_history r) (s1_head r) sample) (s1_head r + 61) sample in
  let head := if Z_le_dec 61 (s1_head r + 1) then 0 else s1_head r + 1 in
  let r' := fst (stage1 sample r) in
  s1_history r' = h /\ s1_head r' = head /\
  s1_index r' = (if Z_le_dec 5 (s1_index r + 1) then 0 else s1_index r + 1) /\
  snd (stage1 sample r) =
    (if Z_le_dec 5 (s1_index r + 1)
     then Some (convolve h head (s1_coeffs_rev r) S1_TAPS) else None) /\
  s1_coeffs_rev r' = s1_coeffs_rev r /\ s2_coeffs_poly r' = s2_coeffs_poly r /\
  s2_history r' = s2_history r /\ s2_head r' = s2_head r /\
  s2_phase_state r' = s2_phase_state r.
Proof.
  unfold stage1. cbv zeta. simpl.
  change S1_TAPS with 61. change S1_DECIMATION with 5.
  destruct (Z_le_dec 61 (s1_head r + 1)); simpl;
    destruct (Z_le_dec 5 (s1_index r + 1)); simpl; repeat split.
Qed.

Lemma stage1_invariant sample r : invariant r -> invariant (fst (stage1 sample r)).
Proof.
  intros [Hl [Hi1 Hh1 Hd1] [Hh Hp Hd] [Hc1 Hc2]].
  destruct (stage1_fields sample r) as (E1 & E2 & E3 & _ & E4 & E5 & E6 & E7 & E8).
  cbv zeta in *. split.
  - destruct Hl. split; rewrite ?E1, ?E4, ?E5, ?E6, ?length_wr; done.
  - split.
    + rewrite E3. destruct (Z_le_dec 5 _); simpl; lia.
    + rewrite E2. destruct (Z_le_dec 61 _); simpl; lia.
    + rewrite E1. apply double_stored_wr; [destruct Hl; lia | done | done].
  - split; by rewrite ?E6, ?E7, ?E8.
  - split; by rewrite ?E4, ?E5.
Qed.

Lemma push_stage1_invariant sample out_cap r o :
  invariant r -> invariant (fst (push_stage1 sample out_cap r o)).
Proof.
  intros Hinv. unfold push_stage1.
  pose proof (stage1_invariant sample r Hinv) as Hst.
  destruct (stage1 sample r) as [r1 [y |]]; simpl in *.
  - by apply push_stage2_invariant.
  - done.
Qed.

Lemma Forall_zero_replicate (n : nat) : Forall (eq c0) (replicate n c0).
Proof. by apply Forall_replicate. Qed.

Lemma reset_invariant r : layout r -> coeffs_built r -> invariant (reset r).
Proof.
  intros Hl Hc. split.
  - by apply layout_reset.
  - split; [simpl; lia | simpl; lia | apply double_stored_zero, Forall_zero_replicate].
  - split; [simpl; lia | simpl; lia | apply double_stored_zero, Forall_zero_replicate].
  - destruct Hc. by split.
Qed.

Lemma ctor_coeffs_built mem : layout mem -> coeffs_built (ctor mem).
Proof.
  intros Hl. rewrite ctor_fields.
  destruct (fill_s1_coeffs_spec (s1_coeffs_rev mem)) as [_ Hc]; [apply Hl |].
  destruct (fill_poly_spec (s2_coeffs_poly mem)) as [_ Hp].
  { split; apply Hl. }
  by split.
Qed.

Lemma ctor_invariant mem : layout mem -> invariant (ctor mem).
Proof.
  intros Hl. pose proof (ctor_coeffs_built mem Hl) as Hc.
  pose proof (layout_ctor mem Hl) as Hl'.
  rewrite ctor_fields in *.
  pose proof (reset_invariant mem Hl) as Hr.
  split; [done | | | done].
  - split; [simpl; lia | simpl; lia | apply double_stored_zero, Forall_zero_replicate].
  - split; [simpl; lia | simpl; lia | apply double_stored_zero, Forall_zero_replicate].
Qed.

Lemma reachable_invariant r : reachable r -> invariant r.
Proof.
  induction 1 as [mem Hl | r _ IH | r x out_cap o _ IH].
  - by apply ctor_invariant.
  - apply reset_invariant; apply IH.
  - by apply push_stage1_invariant.
Qed.

Lemma layout_mem0 : layout mem0.
Proof. split; try reflexivity. simpl. repeat constructor. Qed.

(** ** The convolution loop is the dot product of the specification *)

Lemma foldl_mac_snoc (xs : list float) (x : float) (cs : list float) (c : float) (a : float) :
  cs !! length xs = Some c ->
  foldl mac a (zip (xs ++ [x]) cs) = mac (foldl mac a (zip xs cs)) (x, c).
Proof.
  intros Hc. rewrite zip_with_app_l, zip_with_take_r.
  rewrite (drop_S _ _ _ Hc). simpl. by rewrite foldl_app.
Qed.

Lemma convolve_prefix (h : list complex) (head : Z) (c : list float) (n : nat) :
  0 <= head ->
  Z.of_nat (length h) >= head + Z.of_nat n ->
  (n <= length c)%nat ->
  for_loop 0 (Z.of_nat n)
    (fun k (acc : float * float) =>
       (F32.add (fst acc) (F32.mul (real (rd h (head + k))) (rd c k)),
        F32.add (snd acc) (F32.mul (imag (rd h (head + k))) (rd c k))))
    (F32.zero, F32.zero)
  = (foldl mac F32.zero (zip (real <$> take n (drop (Z.to_nat head) h)) c),
     foldl mac F32.zero (zip (imag <$> take n (drop (Z.to_nat head) h)) c)).
Proof.
  intros Hhead. induction n as [|n IH]; intros Hh Hc.
  - reflexivity.
  - replace (Z.of_nat (S n)) with (Z.of_nat n + 1) by lia.
    rewrite for_loop_last by lia. rewrite IH by lia. cbn [fst snd].
    assert (Hx : drop (Z.to_nat head) h !! n = Some (rd h (head + Z.of_nat n))).
    { rewrite lookup_drop. replace (Z.to_nat head + n)%nat with (Z.to_nat (head + Z.of_nat n)) by lia.
      apply rd_lookup. lia. }
    assert (Hcn : forall (f : complex -> float),
               c !! length (f <$> take n (drop (Z.to_nat head) h)) = Some (rd c (Z.of_nat n))).
    { intros f. rewrite length_fmap, length_take_le by (rewrite length_drop; lia).
      replace n with (Z.to_nat (Z.of_nat n)) at 1 by lia. apply rd_lookup. lia. }
    rewrite (take_S_r _ _ _ Hx), !fmap_app. simpl.
    rewrite !(foldl_mac_snoc _ _ _ _ _ (Hcn _)). reflexivity.
Qed.

Lemma convolve_fir (h : list complex) (head : Z) (c : list float) (n : Z) :
  0 <= head -> 0 <= n ->
  head + n <= Z.of_nat (length h) ->
  n <= Z.of_nat (length c) ->
  convolve h head c n = fir (window h head n) c.
Proof.
  intros Hhead Hn Hh Hc. unfold convolve, fir, window, dot_product.
  replace n with (Z.of_nat (Z.to_nat n)) at 1 2 by lia.
  rewrite convolve_prefix by lia. reflexivity.
Qed.

(** ** Reachability is closed under [process] *)

Lemma process_loop_reachable ins out_cap r o :
  reachable r -> reachable (fst (process_loop ins out_cap r o)).
Proof.
  revert r o. induction ins as [|x ins IH]; intros r o Hr; simpl; [done |].
  pose proof (reach_push r x out_cap o Hr) as Hpush.
  destruct (push_stage1 x out_cap r o) as [r1 o1]. simpl in Hpush.
  destruct (le_dec _ _); [done | by apply IH].
Qed.

Lemma process_reachable r ins out out_cap :
  reachable r -> reachable (fst (fst (process r ins out out_cap))).
Proof.
  intros Hr. unfold process.
  pose proof (process_loop_reachable ins out_cap r (OutState out 0) Hr) as H.
  by destruct (process_loop _ _ _ _).
Qed.

(** Ten unit samples into a fresh resampler: two Stage-1 outputs, each
    followed by one Stage-2 output, and the phase accumulator at 22. *)
Example process_ten_samples :
  let res := process (ctor mem0) (replicate 10 one) ∅ 5 in
  snd res = 2%nat /\
  s1_index (fst (fst res)) = 0 /\ s1_head (fst (fst res)) = 10 /\
  s2_head (fst (fst res)) = 2 /\ s2_phase_state (fst (fst res)) = 22.
Proof. vm_compute. repeat split. Qed.

(** With no room at all, [process] still consumes one sample per call and
    writes nothing. *)
Example process_no_room :
  let res := process (ctor mem0) [one; one; one] ∅ 0 in
  snd res = 0%nat /\ snd (fst res) = ∅ /\ s1_head (fst (fst res)) = 1.
Proof. vm_compute. repeat split. Qed.

Lemma length_S1_COEFFS : length S1_COEFFS = 61%nat.
Proof. vm_compute. reflexivity. Qed.

Lemma length_S2_COEFFS_RAW : length S2_COEFFS_RAW = 729%nat.
Proof. vm_compute. reflexivity. Qed.

Lemma reachable_ctor_mem0 : reachable (ctor mem0).
Proof. apply reach_ctor, layout_mem0. Qed.

(** ** The polyphase bank (C3) *)

(** C3. After construction, entry [56 - k] of branch [p] is the prototype
    coefficient [S2_COEFFS_RAW[p + 13 k]] when that index is below 729, and
    [0.0f] otherwise, for every [p] in [0, 13) and [k] in [0, 57). *)
Theorem polyphase_bank_reversed (mem : dsp_resampler) (p k : Z) :
  layout mem -> 0 <= p < 13 -> 0 <= k < 57 ->
  exists branch v,
    s2_coeffs_poly (ctor mem) !! Z.to_nat p = Some branch /\
    branch !! Z.to_nat (56 - k) = Some v /\
    (p + 13 * k < 729 -> S2_COEFFS_RAW !! Z.to_nat (p + 13 * k) = Some v) /\
    (729 <= p + 13 * k -> v = F32.zero).
Proof.
  intros Hl Hp Hk.
  pose proof (layout_ctor mem Hl) as [_ _ Hlen Hrows _].
  pose proof (ctor_coeffs_built mem Hl) as [_ Hb].
  exists (rd (s2_coeffs_poly (ctor mem)) p),
         (rd (rd (s2_coeffs_poly (ctor mem)) p) (56 - k)).
  assert (Hrow : length (rd (s2_coeffs_poly (ctor mem)) p) = 57%nat).
  { by apply bank_shape_rd. }
  split; [apply rd_lookup; lia |]. split; [apply rd_lookup; lia |].
  rewrite (Hb p k Hp Hk). unfold branch_tap, S2_PHASES, S2_TAPS_TOTAL.
  replace (p + k * 13) with (p + 13 * k) by lia.
  destruct (Z.ltb_spec (p + 13 * k) 729) as [Hlt | Hge]; split; intros H; try lia.
  - apply rd_lookup. rewrite length_S2_COEFFS_RAW. lia.
  - reflexivity.
Qed.

Lemma polyphase_bank_reversed_witness :
  exists branch v,
    s2_coeffs_poly (ctor mem0) !! Z.to_nat 1 = Some branch /\
    branch !! Z.to_nat (56 - 56) = Some v /\
    (1 + 13 * 56 < 729 -> S2_COEFFS_RAW !! Z.to_nat (1 + 13 * 56) = Some v) /\
    (729 <= 1 + 13 * 56 -> v = F32.zero).
Proof. apply (polyphase_bank_reversed mem0 1 56); [apply layout_mem0 | lia | lia]. Defined.

(** ** Double storage (C6) *)

(** C6. In every state of a constructed resampler -- after [reset] and
    after each input sample consumed by [process] -- both histories are
    stored twice: [s1_history[k] = s1_history[k + 61]] for [k] in [0, 61)
    and [s2_history[k] = s2_history[k + 57]] for [k] in [0, 57), all of
    these slots lying inside arrays of 122 and 114 samples. *)
Theorem double_storage (r : dsp_resampler) :
  reachable r ->
  (length (s1_history r) = 122%nat /\
   forall k, 0 <= k < 61 -> rd (s1_history r) k = rd (s1_history r) (k + 61)) /\
  (length (s2_history r) = 114%nat /\
   forall k, 0 <= k < 57 -> rd (s2_history r) k = rd (s2_history r) (k + 57)).
Proof.
  intros Hr. destruct (reachable_invariant r Hr) as [Hl [_ _ H1] [_ _ H2] _].
  destruct Hl. repeat split; done.
Qed.

Lemma double_storage_witness :
  let r := fst (fst (process (reset (ctor mem0)) [one; c0; one; one; one; one; c0] ∅ 4)) in
  (length (s1_history r) = 122%nat /\
   forall k, 0 <= k < 61 -> rd (s1_history r) k = rd (s1_history r) (k + 61)) /\
  (length (s2_history r) = 114%nat /\
   forall k, 0 <= k < 57 -> rd (s2_history r) k = rd (s2_history r) (k + 57)).
Proof.
  apply double_storage, process_reachable, reach_reset, reach_ctor, layout_mem0.
Defined.

(** ** The phase accumulator (C5) *)

(** C5, as the code has it.  Between consumed input samples the phase
    accumulator lies in [0, 24): each Stage-2 step subtracts 13 and each
    emitted output adds 24, so a value in [13, 24) is left whenever the
    next step is one of the 11 in 24 that emit nothing. *)
Theorem phase_state_range (r : dsp_resampler) :
  reachable r -> 0 <= s2_phase_state r < 24.
Proof. intros Hr. apply (reachable_invariant r Hr). Qed.

Lemma phase_state_range_witness :
  0 <= s2_phase_state (fst (fst (process (ctor mem0) (replicate 10 c0) ∅ 5))) < 24.
Proof. apply phase_state_range, process_reachable, reachable_ctor_mem0. Defined.

(** After ten input samples, that is two Stage-2 steps, the accumulator
    holds 22. *)
Lemma phase_state_exceeds_13 :
  let r := fst (fst (process (ctor mem0) (replicate 10 c0) ∅ 5)) in
  reachable r /\ s2_phase_state r = 22 /\ ~ (0 <= s2_phase_state r < 13).
Proof.
  split; [apply process_reachable, reachable_ctor_mem0 |].
  assert (H : s2_phase_state (fst (fst (process (ctor mem0) (replicate 10 c0) ∅ 5))) = 22).
  { vm_compute. reflexivity. }
  rewrite H. split; [reflexivity | lia].
Qed.

(** ** The output buffer (C4) *)

Lemma out_extends_refl out_cap o :
  (out_produced o <= out_cap)%nat -> out_extends out_cap o o.
Proof. intros H. repeat split; [lia | done]. Qed.

Lemma out_extends_trans out_cap o1 o2 o3 :
  out_extends out_cap o1 o2 -> out_extends out_cap o2 o3 -> out_extends out_cap o1 o3.
Proof.
  intros (H1 & H2 & H3) (H4 & H5 & H6). repeat split; [lia | lia |].
  intros i Hi. rewrite H6 by lia. by apply H3.
Qed.

Lemma s2_emit_extends out_cap r o :
  (out_produced o <= out_cap)%nat ->
  out_extends out_cap o (snd (s2_emit out_cap r o)).
Proof.
  funelim (s2_emit out_cap r o); intros Hle.
  - by apply out_extends_refl.
  - by apply out_extends_refl.
  - cbv zeta in *.
    eapply out_extends_trans; [| apply H; simpl; lia].
    repeat split; simpl; [lia | lia |].
    intros i Hi. apply lookup_insert_ne. lia.
Qed.

Lemma push_stage2_extends sample out_cap r o :
  (out_produced o <= out_cap)%nat ->
  out_extends out_cap o (snd (push_stage2 sample out_cap r o)).
Proof.
  intros Hle. rewrite push_stage2_store.
  pose proof (s2_emit_extends out_cap (s2_store sample r) o Hle) as H.
  by destruct (s2_emit _ _ _) as [[[] r1] o1].
Qed.

Lemma push_stage1_extends sample out_cap r o :
  (out_produced o <= out_cap)%nat ->
  out_extends out_cap o (snd (push_stage1 sample out_cap r o)).
Proof.
  intros Hle. unfold push_stage1.
  destruct (stage1 sample r) as [r1 [y |]].
  - by apply push_stage2_extends.
  - by apply out_extends_refl.
Qed.

Lemma process_loop_extends ins out_cap r o :
  (out_produced o <= out_cap)%nat ->
  out_extends out_cap o (snd (process_loop ins out_cap r o)).
Proof.
  revert r o. induction ins as [|x ins IH]; intros r o Hle; simpl.
  - by apply out_extends_refl.
  - pose proof (push_stage1_extends x out_cap r o Hle) as Hpush.
    destruct (push_stage1 x out_cap r o) as [r1 o1]. simpl in Hpush.
    destruct (le_dec _ _); [done |].
    eapply out_extends_trans; [exact Hpush | apply IH, Hpush].
Qed.

(** Once the buffer is full the rest of the input is not looked at. *)
Lemma process_loop_full pre rest out_cap r o :
  pre <> [] ->
  (out_cap <= out_produced (snd (process_loop pre out_cap r o)))%nat ->
  process_loop (pre ++ rest) out_cap r o = process_loop pre out_cap r o.
Proof.
  revert r o. induction pre as [|x pre IH]; intros r o Hne Hfull; [done |].
  simpl in *. destruct (push_stage1 x out_cap r o) as [r1 o1].
  destruct (le_dec _ _) as [Hle | Hgt]; [done |].
  destruct pre as [|y pre]; [simpl in Hfull; lia |].
  by apply IH.
Qed.

(** C4. Whatever the state, the input and the capacity, [process] returns
    a count no larger than [out_cap] and leaves every slot of the output
    memory at or past [out_cap] as it was.  It is a total function: every
    input is accepted and there is no error result.  Once the count has
    reached the capacity, further input of the same call changes nothing:
    the call returns as it would without that input. *)
Theorem process_respects_capacity
    (r : dsp_resampler) (ins : list complex) (out : gmap nat complex) (out_cap : nat) :
  let res := process r ins out out_cap in
  let out' := snd (fst res) in
  let produced := snd res in
  (produced <= out_cap)%nat /\
  (forall i : nat, (out_cap <= i)%nat -> out' !! i = out !! i) /\
  (forall more : list complex,
     ins <> [] -> (out_cap <= produced)%nat ->
     process r (ins ++ more) out out_cap = res).
Proof.
  unfold process.
  pose proof (process_loop_extends ins out_cap r (OutState out 0)) as Hext.
  pose proof (fun more => process_loop_full ins more out_cap r (OutState out 0)) as Hfull.
  destruct (process_loop ins out_cap r (OutState out 0)) as [r' o'].
  destruct Hext as (_ & Hle & Hbuf); [simpl; lia |]. simpl in *.
  split; [done |]. split.
  - intros i Hi. apply Hbuf. lia.
  - intros more Hne Hcap. by rewrite Hfull.
Qed.

Lemma process_respects_capacity_witness :
  process (ctor mem0) (replicate 5 one ++ replicate 7 one) ∅ 1
  = process (ctor mem0) (replicate 5 one) ∅ 1.
Proof.
  apply (process_respects_capacity (ctor mem0) (replicate 5 one) ∅ 1);
    [discriminate | vm_compute; lia].
Defined.

(** ** Counting outputs (C1) *)

Lemma push_stage2_count sample out_cap r o :
  0 <= s2_phase_state r < 24 ->
  (out_produced o < out_cap)%nat ->
  let res := push_stage2 sample out_cap r o in
  s1_index (fst res) = s1_index r /\
  24 * Z.of_nat (out_produced (snd res)) - s2_phase_state (fst res)
  = 24 * Z.of_nat (out_produced o) - s2_phase_state r + 13.
Proof.
  intros Hp Hroom. cbv zeta. rewrite push_stage2_cases by lia. cbv zeta.
  destruct (s2_store_s1 sample r) as (E1 & _).
  unfold S2_INTERP, S2_DECIM.
  destruct (Z_lt_dec _ _) as [Hlt | Hge].
  - destruct (le_dec _ _) as [Hfull | _]; [lia |]. simpl. split; [done | lia].
  - simpl. split; [done | lia].
Qed.

Lemma push_stage1_count sample out_cap r o :
  invariant r ->
  (out_produced o < out_cap)%nat ->
  let res := push_stage1 sample out_cap r o in
  s1_index (fst res) = (s1_index r + 1) mod 5 /\
  24 * Z.of_nat (out_produced (snd res)) - s2_phase_state (fst res)
  = 24 * Z.of_nat (out_produced o) - s2_phase_state r + 13 * ((s1_index r + 1) / 5).
Proof.
  intros [_ [Hidx _ _] [_ Hp _] _] Hroom. cbv zeta. unfold push_stage1.
  destruct (stage1_fields sample r) as (_ & _ & E3 & E4 & _ & _ & _ & _ & E8).
  cbv zeta in *.
  destruct (stage1 sample r) as [r1 oy]. simpl in E3, E4, E8.
  destruct (Z_le_dec 5 (s1_index r + 1)) as [Hemit | Hskip]; subst oy.
  - assert (Hi : s1_index r = 4) by lia.
    destruct (push_stage2_count (convolve
                 (wr (wr (s1_history r) (s1_head r) sample) (s1_head r + 61) sample)
                 (if Z_le_dec 61 (s1_head r + 1) then 0 else s1_head r + 1)
                 (s1_coeffs_rev r) S1_TAPS) out_cap r1 o) as [F1 F2]; [lia | done |].
    rewrite F1, F2, E3, E8, Hi. split; reflexivity.
  - simpl. rewrite E3, E8.
    assert (Hi : 0 <= s1_index r < 4) by lia.
    rewrite Z.mod_small by lia. rewrite (Z.div_small (s1_index r + 1) 5) by lia.
    split; lia.
Qed.

(** With room for every output, the loop of [process] consumes the whole
    input; the decimation counter and the phase accumulator then tell how
    many samples went to Stage 2 and how many outputs were emitted. *)
Lemma process_loop_count ins out_cap r o :
  invariant r ->
  24 * Z.of_nat (out_produced o) - s2_phase_state r
    + 13 * ((s1_index r + Z.of_nat (length ins)) / 5) + 24 <= 24 * Z.of_nat out_cap ->
  let res := process_loop ins out_cap r o in
  invariant (fst res) /\
  s1_index (fst res) = (s1_index r + Z.of_nat (length ins)) mod 5 /\
  24 * Z.of_nat (out_produced (snd res)) - s2_phase_state (fst res)
  = 24 * Z.of_nat (out_produced o) - s2_phase_state r
    + 13 * ((s1_index r + Z.of_nat (length ins)) / 5).
Proof.
  revert r o. induction ins as [|x ins IH]; intros r o Hinv Hcap; cbv zeta.
  - simpl. pose proof (inv_s1 r Hinv) as [Hidx _ _].
    rewrite Z.add_0_r, Z.mod_small, Z.div_small by lia. split; [done | lia].
  - pose proof (inv_s1 r Hinv) as [Hidx _ _].
    pose proof (inv_s2 r Hinv) as [_ Hp _].
    assert (Hroom : (out_produced o < out_cap)%nat).
    { assert (0 <= (s1_index r + Z.of_nat (length (x :: ins))) / 5)
        by (apply Z.div_pos; cbn [length]; lia).
      lia. }
    pose proof (push_stage1_invariant x out_cap r o Hinv) as Hinv1.
    destruct (push_stage1_count x out_cap r o Hinv Hroom) as [G1 G2].
    simpl process_loop. destruct (push_stage1 x out_cap r o) as [r1 o1].
    cbn [fst snd] in Hinv1, G1, G2.
    pose proof (inv_s2 r1 Hinv1) as [_ Hp1 _].
    assert (Hsplit : (s1_index r + Z.of_nat (length (x :: ins))) / 5
                     = (s1_index r + 1) / 5 + (s1_index r1 + Z.of_nat (length ins)) / 5
                     /\ (s1_index r + Z.of_nat (length (x :: ins))) mod 5
                        = (s1_index r1 + Z.of_nat (length ins)) mod 5).
    { rewrite G1. cbn [length]. clear -Hidx. Z.div_mod_to_equations. lia. }
    destruct Hsplit as [Hdiv Hmod].
    assert (0 <= (s1_index r1 + Z.of_nat (length ins)) / 5).
    { apply Z.div_pos; [| lia]. pose proof (inv_s1 r1 Hinv1) as [? _ _]. lia. }
    destruct (le_dec _ _) as [Hfull | _]; [lia |].
    destruct (IH r1 o1 Hinv1) as (I1 & I2 & I3); [lia |].
    split; [done |]. split; [by rewrite Hmod |]. lia.
Qed.

(** ** Silence in, silence out *)

Lemma zero_mac (z c : float) :
  is_zero z = true -> finite c -> F32.add F32.zero (F32.mul z c) = F32.zero.
Proof.
  destruct z as [sz | | |]; intros Hz; try discriminate Hz.
  destruct c as [s | s | | s m e]; intros Hf; try discriminate Hf;
    destruct sz, s; reflexivity.
Qed.

Lemma zero_valued_c0 : zero_valued c0.
Proof. by split. Qed.

Lemma zero_valued_of_c0 (h : list complex) : Forall (eq c0) h -> Forall zero_valued h.
Proof.
  intros H. eapply Forall_impl; [exact H |]. intros x <-. apply zero_valued_c0.
Qed.

Lemma rd_zero_valued (h : list complex) i : Forall zero_valued h -> zero_valued (rd h i).
Proof.
  intros Hall. unfold rd. rewrite list_lookup_total_alt.
  destruct (h !! Z.to_nat i) as [x|] eqn:Hx; simpl.
  - by eapply Forall_lookup_1.
  - apply zero_valued_c0.
Qed.

Lemma finite_of_forallb (l : list float) :
  forallb F32.is_finite l = true -> Forall finite l.
Proof.
  intros H. apply List.Forall_forall. intros x Hx.
  by apply (proj1 (List.forallb_forall F32.is_finite l) H).
Qed.

Lemma S1_COEFFS_finite : Forall finite S1_COEFFS.
Proof. apply finite_of_forallb. vm_compute. reflexivity. Qed.

Lemma S2_COEFFS_RAW_finite : Forall finite S2_COEFFS_RAW.
Proof. apply finite_of_forallb. vm_compute. reflexivity. Qed.

Lemma finite_rd (c : list float) (k : Z) : Forall finite c -> finite (rd c k).
Proof.
  intros Hc. unfold rd. rewrite list_lookup_total_alt.
  destruct (c !! Z.to_nat k) as [x|] eqn:Hx; simpl.
  - by eapply Forall_lookup_1.
  - reflexivity.
Qed.

Lemma finite_branch_tap p k : finite (branch_tap p k).
Proof.
  unfold branch_tap. destruct (_ <? _).
  - apply finite_rd, S2_COEFFS_RAW_finite.
  - reflexivity.
Qed.

Lemma invariant_finite_s1 r : invariant r -> Forall finite (s1_coeffs_rev r).
Proof.
  intros [Hl _ _ [Hc _]]. apply Forall_lookup_2. intros i x Hx.
  pose proof (lookup_lt_Some _ _ _ Hx) as Hi. destruct Hl as [_ Hlen _ _ _].
  assert (Hrd : rd (s1_coeffs_rev r) (Z.of_nat i) = x).
  { unfold rd. rewrite Nat2Z.id. by apply list_lookup_total_correct. }
  rewrite <- Hrd, Hc by lia. apply finite_rd, S1_COEFFS_finite.
Qed.

Lemma invariant_finite_branch r p :
  invariant r -> Forall finite (rd (s2_coeffs_poly r) p).
Proof.
  intros [Hl _ _ [_ Hc]]. destruct Hl as [_ _ Hlen Hrows _].
  unfold rd at 1. rewrite list_lookup_total_alt.
  destruct (s2_coeffs_poly r !! Z.to_nat p) as [b|] eqn:Hb; simpl; [| constructor].
  pose proof (lookup_lt_Some _ _ _ Hb) as Hp.
  assert (Hbr : rd (s2_coeffs_poly r) (Z.of_nat (Z.to_nat p)) = b).
  { unfold rd. rewrite Nat2Z.id. by apply list_lookup_total_correct. }
  assert (Hblen : length b = 57%nat) by (by eapply (Forall_lookup_1 _ _ _ _ Hrows)).
  apply Forall_lookup_2. intros j x Hx.
  pose proof (lookup_lt_Some _ _ _ Hx) as Hj.
  assert (Hrd : rd b (56 - (56 - Z.of_nat j)) = x).
  { unfold rd. replace (Z.to_nat (56 - (56 - Z.of_nat j))) with j by lia.
    by apply list_lookup_total_correct. }
  rewrite <- Hrd, <- Hbr, Hc by lia. apply finite_branch_tap.
Qed.

Lemma convolve_zero (h : list complex) (head : Z) (c : list float) (n : Z) :
  0 <= n -> Forall zero_valued h -> Forall finite c -> convolve h head c n = c0.
Proof.
  intros Hn Hh Hc. unfold convolve.
  assert (Hacc : for_loop 0 n
            (fun k (acc : float * float) =>
               (F32.add (fst acc) (F32.mul (real (rd h (head + k))) (rd c k)),
                F32.add (snd acc) (F32.mul (imag (rd h (head + k))) (rd c k))))
            (F32.zero, F32.zero) = (F32.zero, F32.zero)).
  { apply (for_loop_invariant (fun _ acc => acc = (F32.zero, F32.zero))); [done | done |].
    intros k acc _ ->. cbn [fst snd].
    destruct (rd_zero_valued h (head + k) Hh) as [Hre Him].
    by rewrite !zero_mac by (done || by apply finite_rd). }
  by rewrite Hacc.
Qed.

Lemma push_stage2_zero out_cap r o :
  invariant r -> Forall (eq c0) (s2_history r) -> zeros_out o ->
  let res := push_stage2 c0 out_cap r o in
  s1_history (fst res) = s1_history r /\
  Forall (eq c0) (s2_history (fst res)) /\ zeros_out (snd res).
Proof.
  intros Hinv Hq Hz. cbv zeta.
  pose proof (inv_s2 r Hinv) as [_ Hp _].
  rewrite push_stage2_cases by lia. cbv zeta.
  destruct (s2_store_s1 c0 r) as (_ & E2 & _).
  assert (Hq' : Forall (eq c0) (s2_history (s2_store c0 r))).
  { rewrite s2_store_history. by repeat apply Forall_wr. }
  destruct (Z_lt_dec _ _) as [Hlt | Hge]; [destruct (le_dec _ _) |]; simpl;
    try (repeat split; done).
  repeat split; try done.
  intros i Hi. simpl in *.
  destruct (decide (i = out_produced o)) as [-> | Hne].
  - rewrite lookup_insert_eq. f_equal.
    apply convolve_zero;
      [unfold S2_TAPS_PER_PHASE; lia | by apply zero_valued_of_c0 | by apply invariant_finite_branch].
  - rewrite lookup_insert_ne by done. apply Hz. lia.
Qed.

Lemma push_stage1_zero x out_cap r o :
  zero_valued x ->
  invariant r -> quiet r -> zeros_out o ->
  let res := push_stage1 x out_cap r o in
  quiet (fst res) /\ zeros_out (snd res).
Proof.
  intros Hx Hinv [Hq1 Hq2] Hz. cbv zeta. unfold push_stage1.
  pose proof (stage1_invariant x r Hinv) as Hinv1.
  pose proof (invariant_finite_s1 r Hinv) as Hfin.
  destruct (stage1_fields x r) as (E1 & _ & _ & E4 & _ & _ & E7 & _).
  cbv zeta in *.
  assert (Hq1' : Forall zero_valued (s1_history (fst (stage1 x r)))).
  { rewrite E1. by repeat apply Forall_wr. }
  destruct (stage1 x r) as [r1 oy]. cbn [fst snd] in *.
  destruct (Z_le_dec 5 (s1_index r + 1)); subst oy.
  - assert (Hy : convolve (wr (wr (s1_history r) (s1_head r) x) (s1_head r + 61) x)
                   (if Z_le_dec 61 (s1_head r + 1) then 0 else s1_head r + 1)
                   (s1_coeffs_rev r) S1_TAPS = c0).
    { apply convolve_zero; [unfold S1_TAPS; lia | by rewrite <- E1 | done]. }
    rewrite Hy.
    destruct (push_stage2_zero out_cap r1 o) as (F1 & F2 & F3); [done | by rewrite E7 | done |].
    split; [split |]; [by rewrite F1 | done | done].
  - cbn [fst snd]. split; [split; [done | by rewrite E7] | done].
Qed.

Lemma process_loop_zero ins out_cap r o :
  Forall zero_valued ins ->
  invariant r -> quiet r -> zeros_out o ->
  zeros_out (snd (process_loop ins out_cap r o)).
Proof.
  revert r o. induction ins as [|x ins IH]; intros r o Hins Hinv Hq Hz; [done |].
  apply Forall_cons in Hins as [Hx Hins]. simpl.
  pose proof (push_stage1_invariant x out_cap r o Hinv) as Hinv1.
  destruct (push_stage1_zero x out_cap r o Hx Hinv Hq Hz) as [Hq1 Hz1].
  destruct (push_stage1 x out_cap r o) as [r1 o1]. cbn [fst snd] in *.
  destruct (le_dec _ _); [done | by apply IH].
Qed.

(** ** The worker loop *)

#[global] Arguments BATCH_SIZE : simpl never.

Lemma convert_batch_take chunk count :
  0 <= count ->
  convert_batch chunk count = to_complex <$> take (Z.to_nat (BATCH_SIZE - count)) chunk.
Proof.
  revert count. induction chunk as [|iq rest IH]; intros count Hc; simpl.
  - by rewrite take_nil.
  - destruct (Z.ltb_spec count BATCH_SIZE) as [Hlt | Hge].
    + replace (Z.to_nat (BATCH_SIZE - count))
        with (S (Z.to_nat (BATCH_SIZE - (count + 1)))) by lia.
      simpl. f_equal. apply IH. lia.
    + replace (Z.to_nat (BATCH_SIZE - count)) with 0%nat by lia. reflexivity.
Qed.

(** C10. In one iteration of the worker loop the batch handed to
    [process] is the conversion of the first [BATCH_SIZE = 32768] samples
    of the chunk, at most; the iteration leaves the source, its overflow
    counter included, exactly as it would had the chunk ended there. *)
Theorem worker_batch_limit (chunk : list (Z * Z)) (lock_acquired : bool) (s : iio_source) :
  BATCH_SIZE = 32768 /\
  convert_batch chunk 0 = to_complex <$> take (Z.to_nat BATCH_SIZE) chunk /\
  Z.of_nat (length (convert_batch chunk 0)) <= BATCH_SIZE /\
  worker_process chunk s = worker_process (take (Z.to_nat BATCH_SIZE) chunk) s /\
  worker_iteration chunk lock_acquired s
  = worker_iteration (take (Z.to_nat BATCH_SIZE) chunk) lock_acquired s.
Proof.
  assert (Hconv : convert_batch chunk 0 = to_complex <$> take (Z.to_nat BATCH_SIZE) chunk).
  { rewrite convert_batch_take by lia. by rewrite Z.sub_0_r. }
  assert (Hsame : convert_batch (take (Z.to_nat BATCH_SIZE) chunk) 0 = convert_batch chunk 0).
  { rewrite Hconv, convert_batch_take by lia. rewrite Z.sub_0_r, take_take.
    by rewrite Nat.min_id. }
  split; [reflexivity |]. split; [exact Hconv |]. split.
  - rewrite Hconv, length_fmap, length_take. unfold BATCH_SIZE. lia.
  - unfold worker_iteration, worker_process. by rewrite Hsame.
Qed.

(** Scenario S5 of the specification: capacity 8, overwrite mode, ten
    items written: all ten are accepted and the oldest two are gone. *)
Example write_overwrite_keeps_newest :
  let items := (fun n => Complex (F32.of_int n) F32.zero) <$> seqZ 1 10 in
  write items (CircularBuffer [] 8 true)
  = (CircularBuffer (drop 2 items) 8 true, 10%nat).
Proof. reflexivity. Qed.

(** Without overwrite, a write into a buffer with room for three stops
    after three items. *)
Example write_stops_when_full :
  let items := (fun n => Complex (F32.of_int n) F32.zero) <$> seqZ 1 5 in
  write items (CircularBuffer [c0] 4 false)
  = (CircularBuffer (c0 :: take 3 items) 4 false, 3%nat).
Proof. reflexivity. Qed.




(** ** The consumer call [fill] *)

Lemma run_env_cons w evs env :
  run_env w (evs :: env)
  = match run_events w evs with Some w1 => run_env w1 env | None => None end.
Proof. reflexivity. Qed.

Lemma ready_false n w :
  ready n w = false <->
  g_kal_exit_req w = false /\ (n <=? available w) || negb (streaming (source w)) = false.
Proof.
  unfold ready. rewrite <- orb_assoc, orb_false_iff. reflexivity.
Qed.

Lemma fill_wait_ready n env w ex w' :
  ready n w = true ->
  fill_wait n env w = Some (ex, w') ->
  w' = w /\
  match ex with
  | ExitRequested => g_kal_exit_req w = true
  | Proceed =>
      g_kal_exit_req w = false /\
      (n <=? available w) || negb (streaming (source w)) = true
  end.
Proof.
  unfold ready. rewrite <- orb_assoc. intros Hr Hw.
  destruct env as [| evs env]; cbn [fill_wait] in Hw;
    destruct (g_kal_exit_req w) eqn:Hex; cbn [orb] in Hr;
    try (inversion Hw; subst; by split);
    rewrite Hr in Hw; inversion Hw; subst; by split.
Qed.

Lemma fill_wait_not_ready n env w :
  ready n w = false ->
  fill_wait n env w
  = match env with
    | [] => None
    | evs :: env =>
        match run_events w evs with
        | Some w1 => fill_wait n env w1
        | None => None
        end
    end.
Proof.
  intros Hr. apply ready_false in Hr as [Hf Hp].
  destruct env as [| evs env]; cbn [fill_wait]; by rewrite Hf, Hp.
Qed.

(** When the loop is left, it is left at the first poll that is ready,
    after the events of the suspensions before it. *)
Lemma fill_wait_Some n env : forall w ex w',
  fill_wait n env w = Some (ex, w') ->
  exists k : nat,
    (k <= length env)%nat /\ run_env w (take k env) = Some w' /\
    (forall (j : nat) (wj : world), (j < k)%nat ->
       run_env w (take j env) = Some wj -> ready n wj = false) /\
    match ex with
    | ExitRequested => g_kal_exit_req w' = true
    | Proceed =>
        g_kal_exit_req w' = false /\
        (n <=? available w') || negb (streaming (source w')) = true
    end.
Proof.
  induction env as [| evs env IH]; intros w ex w' Hw;
    destruct (ready n w) eqn:Hr.
  - destruct (fill_wait_ready _ _ _ _ _ Hr Hw) as [-> Hex].
    exists 0%nat. split; [done |]. split; [done |]. split; [intros j wj Hj; lia | done].
  - rewrite fill_wait_not_ready in Hw by done. discriminate.
  - destruct (fill_wait_ready _ _ _ _ _ Hr Hw) as [-> Hex].
    exists 0%nat. split; [cbn; lia |]. split; [done |]. split; [intros j wj Hj; lia | done].
  - rewrite fill_wait_not_ready in Hw by done.
    destruct (run_events w evs) as [w1 |] eqn:Hev; [| discriminate].
    destruct (IH _ _ _ Hw) as (k & Hk & Hrun & Hbefore & Hex).
    exists (S k). split; [cbn; lia |]. split.
    { cbn [take]. by rewrite run_env_cons, Hev. }
    split; [| done]. intros [| j] wj Hj Hwj.
    + cbn in Hwj. by inversion Hwj; subst.
    + cbn [take] in Hwj. rewrite run_env_cons, Hev in Hwj. apply (Hbefore j); [lia | done].
Qed.

(** The loop is not left exactly when no poll was ready for as long as the
    process lived. *)
Lemma fill_wait_None n env : forall w,
  fill_wait n env w = None <->
  forall (k : nat) (wk : world), (k <= length env)%nat ->
    run_env w (take k env) = Some wk -> ready n wk = false.
Proof.
  induction env as [| evs env IH]; intros w; destruct (ready n w) eqn:Hr.
  - split.
    + intros Hw. destruct (fill_wait n [] w) as [[ex w'] |] eqn:Hf; [discriminate |].
      exfalso. unfold ready in Hr. rewrite <- orb_assoc in Hr. cbn [fill_wait] in Hf.
      destruct (g_kal_exit_req w); [discriminate |]. cbn [orb] in Hr. rewrite Hr in Hf.
      discriminate.
    + intros H. specialize (H 0%nat w (Nat.le_refl _) eq_refl). congruence.
  - rewrite fill_wait_not_ready by done. split; [| done].
    intros _ k wk Hk Hwk. rewrite take_nil in Hwk. cbn in Hwk. by inversion Hwk; subst.
  - split.
    + intros Hw. exfalso. unfold ready in Hr. rewrite <- orb_assoc in Hr.
      cbn [fill_wait] in Hw.
      destruct (g_kal_exit_req w); [discriminate |]. cbn [orb] in Hr. rewrite Hr in Hw.
      discriminate.
    + intros H. specialize (H 0%nat w (Nat.le_0_l _) eq_refl). congruence.
  - rewrite fill_wait_not_ready by done.
    destruct (run_events w evs) as [w1 |] eqn:Hev.
    + rewrite IH. split.
      * intros H [| k] wk Hk Hwk.
        -- cbn in Hwk. by inversion Hwk; subst.
        -- cbn [take] in Hwk. rewrite run_env_cons, Hev in Hwk.
           apply (H k); [cbn in Hk; lia | done].
      * intros H k wk Hk Hwk. apply (H (S k)); [cbn; lia |].
        cbn [take]. by rewrite run_env_cons, Hev.
    + split; [| done]. intros _ [| k] wk Hk Hwk.
      * cbn in Hwk. by inversion Hwk; subst.
      * cbn [take] in Hwk. rewrite run_env_cons, Hev in Hwk. discriminate.
Qed.

(** C8, for a non-null [overruns] and a source whose ring buffer exists
    while its worker runs.  [w0] is the world in which [fill] first looks
    at the exit flag and at [streaming]: the world of the call when [cb] is
    null, and otherwise that world after [start] has been called if the
    source was stopped.  While every poll finds the exit flag clear, fewer
    than [num_samples] items available and [streaming] true, [fill] keeps
    waiting.  It returns at the first other poll, and at no later one, in
    the world [we] the other threads have made by then: -1 when the exit
    flag is set or [streaming] is false, storing nothing and leaving [we]
    as it is; 0 otherwise, storing the counter of [we] through [overruns]
    and leaving [we] with the counter set to zero and nothing else
    changed, the ring buffer in particular.  It does not return when no
    poll is such, for as long as the process lives. *)
Theorem fill_outcome (num_samples : Z) (create_ok : bool)
    (env : list (list event)) (w : world) :
  buffer_while_streaming (source w) ->
  let w0 := match cb (source w) with
            | None => w
            | Some _ => ensure_started create_ok w
            end in
  match fill num_samples true create_ok env w with
  | None =>
      cb (source w) <> None /\
      forall (k : nat) (wk : world), (k <= length env)%nat ->
        run_env w0 (take k env) = Some wk -> ready num_samples wk = false
  | Some (ret, stored, w') =>
      exists (k : nat) (we : world),
        (k <= length env)%nat /\
        run_env w0 (take k env) = Some we /\
        (forall (j : nat) (wj : world), (j < k)%nat ->
           run_env w0 (take j env) = Some wj -> ready num_samples wj = false) /\
        ((g_kal_exit_req we = true \/ streaming (source we) = false) /\
         ret = -1 /\ stored = None /\ w' = we
         \/
         g_kal_exit_req we = false /\ streaming (source we) = true /\
         num_samples <= available we /\
         ret = 0 /\ stored = Some (m_overflow_count (source we)) /\
         w' = World (set_m_overflow_count 0 (source we)) (g_kal_exit_req we) /\
         m_overflow_count (source w') = 0 /\
         cb (source w') = cb (source we))
  end.
Proof.
  intros Hbuf. cbv zeta. unfold fill. destruct (cb (source w)) as [b |] eqn:Hcb.
  2: { exists 0%nat, w. split; [lia |]. split; [by rewrite take_0 |].
       split; [intros j wj Hj; lia |]. left. split; [| done]. right.
       destruct (streaming (source w)) eqn:Hs; [| done].
       exfalso. by apply Hbuf. }
  destruct (fill_wait num_samples env (ensure_started create_ok w)) as [[ex w1] |] eqn:Hwait.
  - apply fill_wait_Some in Hwait as (k & Hk & Hrun & Hbefore & Hex).
    destruct ex.
    + exists k, w1. do 3 (split; [done |]). left. by auto.
    + destruct Hex as [Hflag Hpoll].
      destruct (streaming (source w1)) eqn:Hs; cbn [negb].
      * exists k, w1. do 3 (split; [done |]). right.
        cbn [negb] in Hpoll. rewrite orb_false_r in Hpoll.
        apply Z.leb_le in Hpoll. by repeat split.
      * exists k, w1. do 3 (split; [done |]). left. by auto.
  - split; [done |]. by apply fill_wait_None.
Qed.

Lemma fill_outcome_witness :
  let w := World (source_open 4) false in
  let env := [[Worker chunk5 true]; [Sigint]] in
  let w0 := match cb (source w) with
            | None => w
            | Some _ => ensure_started true w
            end in
  match fill 1 true true env w with
  | None =>
      cb (source w) <> None /\
      forall (k : nat) (wk : world), (k <= length env)%nat ->
        run_env w0 (take k env) = Some wk -> ready 1 wk = false
  | Some (ret, stored, w') =>
      exists (k : nat) (we : world),
        (k <= length env)%nat /\
        run_env w0 (take k env) = Some we /\
        (forall (j : nat) (wj : world), (j < k)%nat ->
           run_env w0 (take j env) = Some wj -> ready 1 wj = false) /\
        ((g_kal_exit_req we = true \/ streaming (source we) = false) /\
         ret = -1 /\ stored = None /\ w' = we
         \/
         g_kal_exit_req we = false /\ streaming (source we) = true /\
         1 <= available we /\
         ret = 0 /\ stored = Some (m_overflow_count (source we)) /\
         w' = World (set_m_overflow_count 0 (source we)) (g_kal_exit_req we) /\
         m_overflow_count (source w') = 0 /\
         cb (source w') = cb (source we))
  end.
Proof.
  apply (fill_outcome 1 true [[Worker chunk5 true]; [Sigint]] (World (source_open 4) false)).
  intros _. discriminate.
Defined.

(** One sample is asked for from an empty ring buffer; an iteration of the
    worker delivers one during the first wait and a signal arrives during
    the second: [fill] returns 0 at the poll after the first wait, and
    reports no overrun. *)
Example fill_returns_at_first_ready_poll :
  match fill 1 true true [[Worker chunk5 true]; [Sigint]] (World (source_open 4) false) with
  | Some (ret, stored, w') =>
      ret = 0 /\ stored = Some 0 /\ g_kal_exit_req w' = false /\ available w' = 1
  | None => False
  end.
Proof. vm_compute. repeat split. Qed.

(** A second signal during the same wait ends the process: [fill] does not
    return. *)
Example fill_ended_by_second_signal :
  fill 1 true true [[Sigint; Sigint]] (World (source_open 4) false) = None.
Proof. reflexivity. Qed.

(** * Further properties of the resampler *)

(** ** [process] as a fold of [step] *)

Lemma fst_pair_eq {A B : Type} (a : A) (b : B) : fst (a, b) = a.
Proof. reflexivity. Qed.

Lemma snd_pair_eq {A B : Type} (a : A) (b : B) : snd (a, b) = b.
Proof. reflexivity. Qed.

Lemma push_stage1_step x out_cap r o :
  invariant r -> (out_produced o < out_cap)%nat ->
  push_stage1 x out_cap r o
  = (fst (step x r), match snd (step x r) with Some y => put o y | None => o end).
Proof.
  intros Hinv Hroom. unfold push_stage1, step.
  pose proof (stage1_invariant x r Hinv) as Hinv1.
  destruct (stage1 x r) as [r1 [y |]]; cbn [fst] in Hinv1; [| reflexivity].
  pose proof (inv_s2 r1 Hinv1) as [_ Hp _].
  rewrite push_stage2_cases by lia. cbv zeta.
  destruct (s2_store_s1 y r1) as (_ & _ & _ & _ & E5 & E6).
  rewrite E5, E6.
  destruct (Z_lt_dec _ _); [| reflexivity].
  destruct (le_dec _ _); [lia | reflexivity].
Qed.

Lemma step_invariant x r : invariant r -> invariant (fst (step x r)).
Proof.
  intros Hinv.
  pose proof (push_stage1_invariant x 1 r (OutState ∅ 0) Hinv) as H.
  rewrite push_stage1_step in H by (simpl; done || lia). exact H.
Qed.

Lemma step_reachable x r : reachable r -> reachable (fst (step x r)).
Proof.
  intros Hr. pose proof (reach_push r x 1%nat (OutState ∅ 0) Hr) as H.
  rewrite push_stage1_step in H; [exact H | by apply reachable_invariant | simpl; lia].
Qed.

Lemma run_invariant xs r : invariant r -> invariant (fst (run xs r)).
Proof.
  revert r. induction xs as [|x xs IH]; intros r Hinv; simpl; [done |].
  pose proof (step_invariant x r Hinv) as H1.
  destruct (step x r) as [r1 y]. specialize (IH r1 H1).
  by destruct (run xs r1).
Qed.

Lemma run_reachable xs r : reachable r -> reachable (fst (run xs r)).
Proof.
  revert r. induction xs as [|x xs IH]; intros r Hr; simpl; [done |].
  pose proof (step_reachable x r Hr) as H1.
  destruct (step x r) as [r1 y]. specialize (IH r1 H1).
  by destruct (run xs r1).
Qed.

Lemma put_all_produced o ys :
  out_produced (put_all o ys) = (out_produced o + length ys)%nat.
Proof.
  revert o. induction ys as [|y ys IH]; intros o; simpl; [lia |].
  rewrite IH. simpl. lia.
Qed.

Lemma put_all_lookup_other o ys (i : nat) :
  (i < out_produced o \/ out_produced o + length ys <= i)%nat ->
  out_buffer (put_all o ys) !! i = out_buffer o !! i.
Proof.
  revert o. induction ys as [|y ys IH]; intros o Hi; simpl; [done |].
  rewrite IH by (simpl in *; lia). simpl. apply lookup_insert_ne. simpl in Hi. lia.
Qed.

Lemma put_all_lookup o ys (i : nat) :
  (i < length ys)%nat ->
  out_buffer (put_all o ys) !! (out_produced o + i)%nat = ys !! i.
Proof.
  revert o i. induction ys as [|y ys IH]; intros o i Hi; simpl in *; [lia |].
  destruct i as [|i].
  - rewrite put_all_lookup_other by (simpl; lia). simpl.
    rewrite Nat.add_0_r. apply lookup_insert_eq.
  - replace (out_produced o + S i)%nat with (out_produced (put o y) + i)%nat by (simpl; lia).
    apply IH. lia.
Qed.

Lemma put_all_app o ys zs : put_all o (ys ++ zs) = put_all (put_all o ys) zs.
Proof. apply foldl_app. Qed.

(** With room for everything [run] yields, the loop of [process] is [run]. *)
Lemma process_loop_run xs out_cap r o :
  invariant r ->
  (out_produced o + length (snd (run xs r)) < out_cap)%nat ->
  process_loop xs out_cap r o = (fst (run xs r), put_all o (snd (run xs r))).
Proof.
  revert r o. induction xs as [|x xs IH]; intros r o Hinv Hroom; simpl in *; [done |].
  pose proof (step_invariant x r Hinv) as Hinv1.
  rewrite push_stage1_step by (done || lia).
  destruct (step x r) as [r1 y]. cbn [fst snd] in *.
  destruct (run xs r1) as [r2 ys] eqn:Hrun. cbn [fst snd] in *.
  rewrite length_app in Hroom.
  destruct y as [y |]; simpl in *.
  - destruct (le_dec _ _); [lia |].
    rewrite IH by (rewrite ?Hrun; simpl; done || lia). by rewrite Hrun.
  - destruct (le_dec _ _); [lia |].
    rewrite IH by (rewrite ?Hrun; simpl; done || lia). by rewrite Hrun.
Qed.

(** A final count below the capacity means the loop went through the
    whole input. *)
Lemma process_loop_complete xs out_cap r o :
  invariant r ->
  (out_produced (snd (process_loop xs out_cap r o)) < out_cap)%nat ->
  process_loop xs out_cap r o = (fst (run xs r), put_all o (snd (run xs r))).
Proof.
  revert r o. induction xs as [|x xs IH]; intros r o Hinv Hlt; simpl in *; [done |].
  pose proof (step_invariant x r Hinv) as Hinv1.
  destruct (le_dec out_cap (out_produced o)) as [Hfull | Hroom].
  - exfalso. unfold push_stage1 in Hlt.
    pose proof (stage1_invariant x r Hinv) as Hs.
    destruct (stage1 x r) as [r1 [y |]]; cbn [fst] in Hs.
    + pose proof (inv_s2 r1 Hs) as [_ Hp _].
      rewrite push_stage2_cases in Hlt by lia. cbv zeta in Hlt.
      destruct (Z_lt_dec _ _); [destruct (le_dec _ _); [| lia] |];
        destruct (le_dec _ _); simpl in *; lia.
    + destruct (le_dec _ _); simpl in *; lia.
  - rewrite push_stage1_step in * by (done || lia).
    destruct (step x r) as [r1 y]. cbn [fst snd] in *.
    destruct (run xs r1) as [r2 ys] eqn:Hrun.
    destruct y as [y |]; simpl in *.
    + destruct (le_dec _ _); [simpl in *; lia |].
      rewrite IH by done. by rewrite Hrun.
    + destruct (le_dec _ _); [simpl in *; lia |].
      rewrite IH by done. by rewrite Hrun.
Qed.

Lemma run_app xs ys r :
  run (xs ++ ys) r
  = (fst (run ys (fst (run xs r))), snd (run xs r) ++ snd (run ys (fst (run xs r)))).
Proof.
  revert r. induction xs as [|x xs IH]; intros r; simpl.
  - by destruct (run ys r).
  - destruct (step x r) as [r1 y]. rewrite IH.
    destruct (run xs r1) as [r2 zs]. simpl. by rewrite app_assoc.
Qed.

Lemma read_out_put_all out ys :
  read_out (out_buffer (put_all (OutState out 0) ys)) (length ys) = ys.
Proof.
  apply list_eq. intros i. unfold read_out. rewrite list_lookup_fmap.
  destruct (decide (i < length ys)%nat) as [Hi | Hi].
  - rewrite lookup_seq_lt by done. simpl.
    pose proof (put_all_lookup (OutState out 0) ys i Hi) as H. simpl in H.
    destruct (lookup_lt_is_Some_2 ys i Hi) as [y Hy]. rewrite Hy in *.
    f_equal. by apply lookup_total_correct.
  - rewrite lookup_seq_ge by lia. simpl. symmetry. apply lookup_ge_None. lia.
Qed.

Lemma process_run r xs out out_cap :
  invariant r ->
  ((snd (process r xs out out_cap) < out_cap)%nat
   <-> (length (snd (run xs r)) < out_cap)%nat) /\
  ((snd (process r xs out out_cap) < out_cap)%nat ->
   process r xs out out_cap
   = (fst (run xs r), out_buffer (put_all (OutState out 0) (snd (run xs r))),
      length (snd (run xs r)))).
Proof.
  intros Hinv. unfold process.
  pose proof (process_loop_complete xs out_cap r (OutState out 0) Hinv) as Hc.
  pose proof (process_loop_run xs out_cap r (OutState out 0) Hinv) as Hr.
  destruct (process_loop xs out_cap r (OutState out 0)) as [r' o'] eqn:Hp.
  cbn [fst snd] in *. split; [split |].
  - intros Hlt. specialize (Hc Hlt). inversion Hc; subst.
    rewrite put_all_produced in Hlt. simpl in Hlt. lia.
  - intros Hlt. specialize (Hr ltac:(simpl; lia)). inversion Hr; subst.
    rewrite put_all_produced. simpl. lia.
  - intros Hlt. specialize (Hc Hlt). inversion Hc; subst.
    by rewrite put_all_produced.
Qed.

(** X1. For a constructed resampler, [process] returns less than
    [out_cap] exactly when [out_cap] exceeds the number of samples the
    input yields; it has then consumed the whole input, its outputs lie in
    order from index 0 on, and the rest of the output memory is as it
    was. *)
Theorem process_below_capacity_complete
    (r : dsp_resampler) (xs : list complex) (out : gmap nat complex) (out_cap : nat) :
  reachable r ->
  let res := process r xs out out_cap in
  let ys := snd (run xs r) in
  ((snd res < out_cap)%nat <-> (length ys < out_cap)%nat) /\
  ((snd res < out_cap)%nat ->
     fst (fst res) = fst (run xs r) /\
     snd res = length ys /\
     read_out (snd (fst res)) (snd res) = ys /\
     (forall i : nat, (i < length ys)%nat -> snd (fst res) !! i = ys !! i) /\
     (forall i : nat, (length ys <= i)%nat -> snd (fst res) !! i = out !! i)).
Proof.
  intros Hr. cbv zeta.
  destruct (process_run r xs out out_cap (reachable_invariant r Hr)) as [Hiff Heq].
  split; [exact Hiff |]. intros Hlt. rewrite (Heq Hlt). cbn [fst snd].
  split; [done |]. split; [done |]. split; [apply read_out_put_all |]. split.
  - intros i Hi. apply (put_all_lookup (OutState out 0) _ i Hi).
  - intros i Hi. apply (put_all_lookup_other (OutState out 0)). simpl. lia.
Qed.

Lemma process_below_capacity_complete_witness :
  let r := ctor mem0 in
  let xs := replicate 10 one in
  let res := process r xs ∅ 5 in
  let ys := snd (run xs r) in
  ((snd res < 5)%nat <-> (length ys < 5)%nat) /\
  ((snd res < 5)%nat ->
     fst (fst res) = fst (run xs r) /\
     snd res = length ys /\
     read_out (snd (fst res)) (snd res) = ys /\
     (forall i : nat, (i < length ys)%nat -> snd (fst res) !! i = ys !! i) /\
     (forall i : nat, (length ys <= i)%nat -> snd (fst res) !! i = (∅ : gmap nat complex) !! i)).
Proof.
  apply (process_below_capacity_complete (ctor mem0) (replicate 10 one) ∅ 5).
  apply reachable_ctor_mem0.
Defined.

(** X2. Block boundaries do not matter: when each call returns less than
    its capacity, processing [xs] and then [ys] leaves the resampler in the
    state that one call on [xs ++ ys] leaves it in, and the outputs of the
    two calls, one after the other, are the outputs of the single call. *)
Theorem process_block_independent
    (r : dsp_resampler) (xs ys : list complex)
    (out1 out2 out : gmap nat complex) (cap1 cap2 cap : nat) :
  reachable r ->
  let a := process r xs out1 cap1 in
  let b := process (fst (fst a)) ys out2 cap2 in
  let c := process r (xs ++ ys) out cap in
  (snd a < cap1)%nat -> (snd b < cap2)%nat -> (snd a + snd b < cap)%nat ->
  fst (fst c) = fst (fst b) /\
  snd c = (snd a + snd b)%nat /\
  read_out (snd (fst c)) (snd c)
  = read_out (snd (fst a)) (snd a) ++ read_out (snd (fst b)) (snd b).
Proof.
  intros Hr. cbv zeta. intros Ha Hb Hc.
  pose proof (reachable_invariant r Hr) as Hinv.
  destruct (process_run r xs out1 cap1 Hinv) as [_ Ea]. specialize (Ea Ha).
  rewrite Ea in *. cbn [fst snd] in *.
  pose proof (run_invariant xs r Hinv) as Hinv1.
  destruct (process_run (fst (run xs r)) ys out2 cap2 Hinv1) as [_ Eb]. specialize (Eb Hb).
  rewrite Eb in *. cbn [fst snd] in *.
  destruct (process_run r (xs ++ ys) out cap Hinv) as [Hiff Ec].
  assert (Hlt : (snd (process r (xs ++ ys) out cap) < cap)%nat).
  { apply Hiff. rewrite run_app. cbn [snd]. rewrite length_app. lia. }
  rewrite (Ec Hlt). cbn [fst snd]. rewrite !read_out_put_all.
  rewrite run_app. cbn [fst snd]. by rewrite length_app.
Qed.

Lemma process_block_independent_witness :
  let r := ctor mem0 in
  let xs := [one; c0; one; one; one; one] in
  let ys := [c0; one; one; one] in
  let a := process r xs ∅ 3 in
  let b := process (fst (fst a)) ys ∅ 2 in
  let c := process r (xs ++ ys) ∅ 3 in
  fst (fst c) = fst (fst b) /\
  snd c = (snd a + snd b)%nat /\
  read_out (snd (fst c)) (snd c)
  = read_out (snd (fst a)) (snd a) ++ read_out (snd (fst b)) (snd b).
Proof.
  apply (process_block_independent (ctor mem0)
           [one; c0; one; one; one; one] [c0; one; one; one] ∅ ∅ ∅ 3 2 3).
  - apply reachable_ctor_mem0.
  - vm_compute. lia.
  - vm_compute. lia.
  - vm_compute. lia.
Defined.

(** ** The histories as sliding windows *)

Lemma length_window (h : list complex) head n :
  0 <= head -> 0 <= n -> head + n <= Z.of_nat (length h) ->
  length (window h head n) = Z.to_nat n.
Proof.
  intros Hh Hn Hlen. unfold window. rewrite length_take, length_drop. lia.
Qed.

Lemma window_lookup (h : list complex) head n (i : nat) :
  0 <= head -> head + n <= Z.of_nat (length h) -> Z.of_nat i < n ->
  window h head n !! i = Some (rd h (head + Z.of_nat i)).
Proof.
  intros Hh Hlen Hi. unfold window.
  rewrite lookup_take_lt by lia. rewrite lookup_drop.
  replace (Z.to_nat head + i)%nat with (Z.to_nat (head + Z.of_nat i)) by lia.
  apply rd_lookup. lia.
Qed.

(** A double store followed by the advance of the head drops the oldest
    sample of the window and appends the new one. *)
Lemma window_slide (h : list complex) n head x :
  0 < n -> Z.of_nat (length h) = 2 * n -> 0 <= head < n ->
  double_stored h n ->
  window (wr (wr h head x) (head + n) x)
         (if Z_le_dec n (head + 1) then 0 else head + 1) n
  = drop 1 (window h head n) ++ [x].
Proof.
  intros Hn Hlen Hhead Hd.
  set (h' := wr (wr h head x) (head + n) x).
  set (head' := if Z_le_dec n (head + 1) then 0 else head + 1).
  assert (Hlen' : Z.of_nat (length h') = 2 * n) by (unfold h'; by rewrite !length_wr).
  assert (Hhead' : 0 <= head' < n) by (unfold head'; destruct (Z_le_dec _ _); lia).
  apply list_eq. intros i.
  destruct (decide (Z.of_nat i < n)) as [Hi | Hi].
  - rewrite window_lookup by lia.
    destruct (decide (Z.of_nat i = n - 1)) as [Hlast | Hmid].
    + rewrite lookup_app_r by (rewrite length_drop, length_window; lia).
      rewrite length_drop, length_window by lia.
      replace (i - (Z.to_nat n - 1))%nat with 0%nat by lia. simpl. f_equal.
      unfold h', head'. destruct (Z_le_dec _ _).
      * replace (0 + Z.of_nat i) with head by lia.
        rewrite rd_wr_ne by lia. apply rd_wr_eq. lia.
      * replace (head + 1 + Z.of_nat i) with (head + n) by lia.
        apply rd_wr_eq. rewrite length_wr. lia.
    + rewrite lookup_app_l by (rewrite length_drop, length_window; lia).
      rewrite lookup_drop. rewrite window_lookup by lia. f_equal.
      unfold h', head'. destruct (Z_le_dec _ _).
      * rewrite !rd_wr_ne by lia.
        replace (head + Z.of_nat (1 + i)) with (0 + Z.of_nat i + n) by lia.
        apply Hd. lia.
      * rewrite !rd_wr_ne by lia. f_equal. lia.
  - rewrite (lookup_ge_None_2 (window h' head' n))
      by (rewrite length_window; lia).
    symmetry. apply lookup_ge_None_2.
    rewrite length_app, length_drop, length_window by lia. simpl. lia.
Qed.

Lemma step_s1_fields x r :
  s1_history (fst (step x r)) = s1_history (fst (stage1 x r)) /\
  s1_head (fst (step x r)) = s1_head (fst (stage1 x r)) /\
  s1_index (fst (step x r)) = s1_index (fst (stage1 x r)) /\
  s1_coeffs_rev (fst (step x r)) = s1_coeffs_rev r /\
  s2_coeffs_poly (fst (step x r)) = s2_coeffs_poly r.
Proof.
  unfold step. destruct (stage1_fields x r) as (_ & _ & _ & _ & E4 & E5 & _).
  cbv zeta in *. destruct (stage1 x r) as [r1 [y |]]; cbn [fst] in *; [| done].
  destruct (s2_store_s1 y r1) as (F1 & F2 & F3 & F4 & F5 & _).
  destruct (Z_lt_dec _ _); cbn [fst]; simpl; rewrite ?F1, ?F2, ?F3, ?F4, ?F5; done.
Qed.

Lemma stage1_window x r :
  invariant r ->
  window (s1_history (fst (stage1 x r))) (s1_head (fst (stage1 x r))) 61
  = drop 1 (window (s1_history r) (s1_head r) 61) ++ [x].
Proof.
  intros [Hl [_ Hh Hd] _ _].
  destruct (stage1_fields x r) as (E1 & E2 & _). cbv zeta in *.
  rewrite E1, E2. apply window_slide; [lia | destruct Hl; lia | done | done].
Qed.

Lemma s2_store_window y r :
  invariant r ->
  window (s2_history (s2_store y r)) (s2_head (s2_store y r)) 57
  = drop 1 (window (s2_history r) (s2_head r) 57) ++ [y].
Proof.
  intros [Hl _ [Hh _ Hd] _].
  rewrite s2_store_history.
  assert (E : s2_head (s2_store y r) = if Z_le_dec 57 (s2_head r + 1) then 0 else s2_head r + 1).
  { unfold s2_store. cbv zeta. simpl. change S2_TAPS_PER_PHASE with 57.
    by destruct (Z_le_dec 57 (s2_head r + 1)). }
  rewrite E. apply window_slide; [lia | destruct Hl; lia | done | done].
Qed.

(** X3. For a constructed resampler, the 61 Stage-1 history entries from
    [s1_head] on are the last 61 samples pushed, oldest first: each input
    sample drops the oldest entry of that window and appends itself. *)
Theorem stage1_history_slides (r : dsp_resampler) (x : complex) :
  reachable r ->
  let r' := fst (step x r) in
  length (window (s1_history r) (s1_head r) 61) = 61%nat /\
  window (s1_history r') (s1_head r') 61
  = drop 1 (window (s1_history r) (s1_head r) 61) ++ [x].
Proof.
  intros Hr. cbv zeta. pose proof (reachable_invariant r Hr) as Hinv.
  destruct (step_s1_fields x r) as (E1 & E2 & _). rewrite E1, E2. split.
  - destruct Hinv as [Hl [_ Hh _] _ _]. rewrite length_window; destruct Hl; lia.
  - by apply stage1_window.
Qed.

Lemma stage1_history_slides_witness :
  let r := ctor mem0 in
  let r' := fst (step one r) in
  length (window (s1_history r) (s1_head r) 61) = 61%nat /\
  window (s1_history r') (s1_head r') 61
  = drop 1 (window (s1_history r) (s1_head r) 61) ++ [one].
Proof. apply (stage1_history_slides (ctor mem0) one), reachable_ctor_mem0. Defined.

Lemma run_s1_window xs r :
  invariant r ->
  window (s1_history (fst (run xs r))) (s1_head (fst (run xs r))) 61
  = drop (length xs) (window (s1_history r) (s1_head r) 61 ++ xs).
Proof.
  revert r. induction xs as [|x xs IH]; intros r Hinv; simpl.
  - rewrite app_nil_r. reflexivity.
  - pose proof (step_invariant x r Hinv) as Hinv1.
    pose proof (stage1_window x r Hinv) as Hw.
    destruct (step_s1_fields x r) as (E1 & E2 & _). rewrite <- E1, <- E2 in Hw.
    destruct (step x r) as [r1 y]. cbn [fst] in *.
    specialize (IH r1 Hinv1). destruct (run xs r1) as [r2 ys]. cbn [fst] in *.
    rewrite IH, Hw.
    assert (Hlen : length (window (s1_history r) (s1_head r) 61) = 61%nat).
    { destruct Hinv as [Hl [_ Hh _] _ _]. rewrite length_window; destruct Hl; lia. }
    destruct (window (s1_history r) (s1_head r) 61) as [|w0 w]; [discriminate |].
    simpl. rewrite drop_0. by rewrite <- app_assoc.
Qed.

(** X4. After [reset], once [process] has consumed an input [xs]
    (returning less than [out_cap]), the Stage-1 window holds the last 61
    samples of [xs], preceded by zeros while fewer than 61 have come. *)
Theorem stage1_history_is_recent_input
    (r : dsp_resampler) (xs : list complex) (out : gmap nat complex) (out_cap : nat) :
  reachable r ->
  let res := process (reset r) xs out out_cap in
  let r' := fst (fst res) in
  (snd res < out_cap)%nat ->
  window (s1_history r') (s1_head r') 61
  = drop (length xs) (replicate 61 c0 ++ xs).
Proof.
  intros Hr. cbv zeta. intros Hlt.
  pose proof (reachable_invariant _ (reach_reset r Hr)) as Hinv.
  destruct (process_run (reset r) xs out out_cap Hinv) as [_ Heq].
  rewrite (Heq Hlt). cbn [fst snd]. rewrite run_s1_window by done.
  reflexivity.
Qed.

Lemma stage1_history_is_recent_input_witness :
  let res := process (reset (ctor mem0)) [one; one; c0] ∅ 1 in
  let r' := fst (fst res) in
  window (s1_history r') (s1_head r') 61
  = drop (length [one; one; c0]) (replicate 61 c0 ++ [one; one; c0]).
Proof.
  apply (stage1_history_is_recent_input (ctor mem0) [one; one; c0] ∅ 1).
  - apply reachable_ctor_mem0.
  - vm_compute. lia.
Defined.

(** ** One Stage-2 step *)

(** X5. One call of [push_stage2] on a constructed resampler.  The sample
    always enters the 57-sample window.  With the phase at 13 or more,
    nothing is written and the phase drops by 13.  With the phase below 13
    and room in the buffer, exactly one output is written at
    [out_produced]: the dot product of the window with the polyphase branch
    selected by the phase, and the phase grows by 11.  With the phase below
    13 and the buffer full, nothing is written and the phase is left as it
    is. *)
Theorem stage2_step (r : dsp_resampler) (y : complex) (out_cap : nat) (o : out_state) :
  reachable r ->
  let res := push_stage2 y out_cap r o in
  let r' := fst res in
  let w := drop 1 (window (s2_history r) (s2_head r) 57) ++ [y] in
  window (s2_history r') (s2_head r') 57 = w /\
  (13 <= s2_phase_state r ->
     snd res = o /\ s2_phase_state r' = s2_phase_state r - 13) /\
  (s2_phase_state r < 13 -> (out_produced o < out_cap)%nat ->
     snd res = put o (fir w (rd (s2_coeffs_poly r) (s2_phase_state r))) /\
     s2_phase_state r' = s2_phase_state r + 11) /\
  (s2_phase_state r < 13 -> (out_cap <= out_produced o)%nat ->
     snd res = o /\ s2_phase_state r' = s2_phase_state r).
Proof.
  intros Hr. cbv zeta. pose proof (reachable_invariant r Hr) as Hinv.
  pose proof (inv_s2 r Hinv) as [_ Hp _].
  pose proof (s2_store_window y r Hinv) as Hw.
  pose proof (invariant_s2_store y r Hinv) as [Hl1 _ [Hh1 _ _] _].
  destruct (s2_store_s1 y r) as (_ & _ & _ & _ & E5 & E6).
  rewrite push_stage2_cases by lia. cbv zeta.
  change S2_INTERP with 13. change S2_DECIM with 24.
  destruct (Z_lt_dec (s2_phase_state r) 13) as [Hlt | Hge].
  - assert (Hfir : convolve (s2_history (s2_store y r)) (s2_head (s2_store y r))
                     (rd (s2_coeffs_poly r) (s2_phase_state r)) S2_TAPS_PER_PHASE
                   = fir (drop 1 (window (s2_history r) (s2_head r) 57) ++ [y])
                         (rd (s2_coeffs_poly r) (s2_phase_state r))).
    { rewrite <- Hw. apply convolve_fir; unfold S2_TAPS_PER_PHASE.
      - lia.
      - lia.
      - destruct Hl1. lia.
      - destruct Hinv as [Hl _ _ _].
        rewrite (bank_shape_rd (s2_coeffs_poly r) (s2_phase_state r)); [lia | | lia].
        destruct Hl. by split. }
    destruct (le_dec out_cap (out_produced o)) as [Hfull | Hroom]; cbn [fst snd].
    + split; [exact Hw |]. split; [intros; lia |]. split; [intros; lia |].
      intros _ _. by rewrite E6.
    + split; [exact Hw |]. split; [intros; lia |]. split; [| intros; lia].
      intros _ _. split; [| simpl; lia]. unfold put. by rewrite Hfir.
  - cbn [fst snd]. split; [exact Hw |]. split; [| split; intros; lia].
    intros _. split; [done | simpl; lia].
Qed.

Lemma stage2_step_witness :
  let r := ctor mem0 in
  let res := push_stage2 one 4 r (OutState ∅ 0) in
  let r' := fst res in
  let w := drop 1 (window (s2_history r) (s2_head r) 57) ++ [one] in
  window (s2_history r') (s2_head r') 57 = w /\
  (13 <= s2_phase_state r ->
     snd res = OutState ∅ 0 /\ s2_phase_state r' = s2_phase_state r - 13) /\
  (s2_phase_state r < 13 -> (out_produced (OutState ∅ 0) < 4)%nat ->
     snd res = put (OutState ∅ 0) (fir w (rd (s2_coeffs_poly r) (s2_phase_state r))) /\
     s2_phase_state r' = s2_phase_state r + 11) /\
  (s2_phase_state r < 13 -> (4 <= out_produced (OutState ∅ 0))%nat ->
     snd res = OutState ∅ 0 /\ s2_phase_state r' = s2_phase_state r).
Proof. apply (stage2_step (ctor mem0) one 4 (OutState ∅ 0)), reachable_ctor_mem0. Defined.

(** ** Output counts from any state *)

Lemma run_count xs r :
  invariant r ->
  s1_index (fst (run xs r)) = (s1_index r + Z.of_nat (length xs)) mod 5 /\
  24 * Z.of_nat (length (snd (run xs r))) - s2_phase_state (fst (run xs r))
  = 13 * ((s1_index r + Z.of_nat (length xs)) / 5) - s2_phase_state r.
Proof.
  intros Hinv.
  set (cap := (length xs + 2)%nat).
  pose proof (inv_s1 r Hinv) as [Hidx _ _]. pose proof (inv_s2 r Hinv) as [_ Hp _].
  destruct (process_loop_count xs cap r (OutState ∅ 0) Hinv) as (Hinv' & Hi & Hbal).
  { cbn [out_produced]. unfold cap. revert Hidx Hp.
    generalize (s1_index r) (s2_phase_state r) (length xs). intros i p n Hi Hp.
    Z.div_mod_to_equations. lia. }
  pose proof (inv_s2 _ Hinv') as [_ Hp' _].
  assert (Hlt : (out_produced (snd (process_loop xs cap r (OutState ∅ 0))) < cap)%nat).
  { revert Hbal Hp'. cbn [out_produced]. unfold cap.
    generalize (out_produced (snd (process_loop xs (length xs + 2) r (OutState ∅ 0)))).
    generalize (s2_phase_state (fst (process_loop xs (length xs + 2) r (OutState ∅ 0)))).
    revert Hidx Hp. generalize (s1_index r) (s2_phase_state r) (length xs).
    intros i p n Hi0 Hp p' c Hbal Hp'. Z.div_mod_to_equations. lia. }
  rewrite (process_loop_complete xs cap r (OutState ∅ 0) Hinv Hlt) in Hi, Hbal.
  cbn [fst snd] in Hi, Hbal. rewrite put_all_produced in Hbal. cbn [out_produced] in Hbal.
  split; [exact Hi |]. rewrite Nat.add_0_l in Hbal. lia.
Qed.

(** X6. Whenever [process], on a constructed resampler in any state,
    returns a count [n] below [out_cap] for [N] input samples, that count
    is fixed by the decimation counter and the phase accumulator before
    and after the call, and [120 n] differs from [13 N] by at most 167:
    the count is within 1.4 of [13 N / 120]. *)
Theorem process_count_any_state
    (r : dsp_resampler) (xs : list complex) (out : gmap nat complex) (out_cap : nat) :
  reachable r ->
  let res := process r xs out out_cap in
  let r' := fst (fst res) in
  let n := Z.of_nat (snd res) in
  let N := Z.of_nat (length xs) in
  (snd res < out_cap)%nat ->
  s1_index r' = (s1_index r + N) mod 5 /\
  24 * n = 13 * ((s1_index r + N) / 5) + s2_phase_state r' - s2_phase_state r /\
  -167 <= 120 * n - 13 * N <= 167.
Proof.
  intros Hr. cbv zeta. intros Hlt.
  pose proof (reachable_invariant r Hr) as Hinv.
  destruct (process_run r xs out out_cap Hinv) as [_ Heq].
  rewrite (Heq Hlt). cbn [fst snd].
  destruct (run_count xs r Hinv) as [Hi Hbal].
  pose proof (inv_s1 r Hinv) as [Hidx _ _]. pose proof (inv_s2 r Hinv) as [_ Hp _].
  pose proof (inv_s2 _ (run_invariant xs r Hinv)) as [_ Hp' _].
  split; [exact Hi |]. split; [lia |].
  revert Hbal Hp'. generalize (Z.of_nat (length (snd (run xs r)))).
  generalize (s2_phase_state (fst (run xs r))).
  revert Hidx Hp. generalize (s1_index r) (s2_phase_state r) (Z.of_nat (length xs)).
  intros i p N Hi' Hp p' c Hbal Hp'. Z.div_mod_to_equations. lia.
Qed.

Lemma process_count_any_state_witness :
  let r := fst (run [one; one; one] (ctor mem0)) in
  let xs := replicate 12 one in
  let res := process r xs ∅ 4 in
  let r' := fst (fst res) in
  let n := Z.of_nat (snd res) in
  let N := Z.of_nat (length xs) in
  s1_index r' = (s1_index r + N) mod 5 /\
  24 * n = 13 * ((s1_index r + N) / 5) + s2_phase_state r' - s2_phase_state r /\
  -167 <= 120 * n - 13 * N <= 167.
Proof.
  apply (process_count_any_state (fst (run [one; one; one] (ctor mem0))) (replicate 12 one) ∅ 4).
  - apply run_reachable, reachable_ctor_mem0.
  - vm_compute. lia.
Defined.

(** X7. The sizing rule of the header, [out_cap >= in_count / 9], is
    enough from [in_count = 836] on: on a constructed resampler in any
    state, [process] then returns less than [out_cap] and has consumed the
    whole input. *)
Theorem process_sizing_rule
    (r : dsp_resampler) (xs : list complex) (out : gmap nat complex) (out_cap : nat) :
  reachable r ->
  836 <= Z.of_nat (length xs) ->
  Z.of_nat (length xs) / 9 <= Z.of_nat out_cap ->
  let res := process r xs out out_cap in
  (snd res < out_cap)%nat /\
  fst (fst res) = fst (run xs r) /\
  read_out (snd (fst res)) (snd res) = snd (run xs r).
Proof.
  intros Hr HN Hcap. cbv zeta.
  pose proof (reachable_invariant r Hr) as Hinv.
  destruct (process_run r xs out out_cap Hinv) as [Hiff Heq].
  destruct (run_count xs r Hinv) as [_ Hbal].
  pose proof (inv_s1 r Hinv) as [Hidx _ _]. pose proof (inv_s2 r Hinv) as [_ Hp _].
  pose proof (inv_s2 _ (run_invariant xs r Hinv)) as [_ Hp' _].
  assert (Hlt : (length (snd (run xs r)) < out_cap)%nat).
  { revert Hbal Hp' HN Hcap. generalize (length (snd (run xs r))).
    generalize (s2_phase_state (fst (run xs r))).
    revert Hidx Hp. generalize (s1_index r) (s2_phase_state r) (Z.of_nat (length xs)).
    intros i p N Hi' Hp p' c Hbal Hp' HN Hcap. Z.div_mod_to_equations. lia. }
  apply Hiff in Hlt. split; [exact Hlt |]. rewrite (Heq Hlt). cbn [fst snd].
  split; [done | apply read_out_put_all].
Qed.

Lemma process_sizing_rule_witness :
  let xs := replicate 836 c0 in
  let res := process (ctor mem0) xs ∅ 92 in
  (snd res < 92)%nat /\
  fst (fst res) = fst (run xs (ctor mem0)) /\
  read_out (snd (fst res)) (snd res) = snd (run xs (ctor mem0)).
Proof.
  apply (process_sizing_rule (ctor mem0) (replicate 836 c0) ∅ 92).
  - apply reachable_ctor_mem0.
  - rewrite length_replicate. lia.
  - rewrite length_replicate. vm_compute. discriminate.
Defined.

(** * Stage 1 and the output count *)

(** ** Stage 1 (C2) *)

Lemma push_stage2_s1_index y out_cap r o :
  invariant r -> s1_index (fst (push_stage2 y out_cap r o)) = s1_index r.
Proof.
  intros Hinv. pose proof (inv_s2 r Hinv) as [_ Hp _].
  rewrite push_stage2_cases by lia. cbv zeta.
  destruct (s2_store_s1 y r) as (E & _).
  destruct (Z_lt_dec _ _); [destruct (le_dec _ _) |]; cbn [fst]; exact E.
Qed.

(** C2. One call of [push_stage1].  [r1] is the resampler when the sample
    has been stored and the decimation counter, which stays in [0, 5),
    has been advanced.  While the counter has not reached 5 the call ends
    there: it returns [r1], whose counter is one more, with Stage 2 and
    the output as they were.  When the counter reaches 5 it restarts from
    0 and the call goes on into [push_stage2] with one sample: the dot
    product of the 61 history entries from [s1_head] on, the sample just
    stored being the last, with [s1_coeffs_rev], taken on the real and on
    the imaginary parts with the same taps.  After the call the counter is
    the number of inputs modulo 5, and [s1_coeffs_rev[i]] is
    [S1_COEFFS[60 - i]]. *)
Theorem stage1_decimates_by_five
    (r : dsp_resampler) (x : complex) (out_cap : nat) (o : out_state) :
  reachable r ->
  let r1 := fst (stage1 x r) in
  let res := push_stage1 x out_cap r o in
  0 <= s1_index r < 5 /\
  (s1_index r + 1 < 5 ->
     res = (r1, o) /\ s1_index r1 = s1_index r + 1 /\
     s2_history r1 = s2_history r /\ s2_head r1 = s2_head r /\
     s2_phase_state r1 = s2_phase_state r) /\
  (s1_index r + 1 = 5 ->
     s1_index r1 = 0 /\
     res = push_stage2
             (fir (window (s1_history r1) (s1_head r1) 61) (s1_coeffs_rev r1))
             out_cap r1 o) /\
  s1_index (fst res) = (s1_index r + 1) mod 5 /\
  window (s1_history r1) (s1_head r1) 61
  = drop 1 (window (s1_history r) (s1_head r) 61) ++ [x] /\
  length (s1_coeffs_rev r1) = 61%nat /\
  (forall i, 0 <= i < 61 ->
     s1_coeffs_rev r1 !! Z.to_nat i = S1_COEFFS !! Z.to_nat (60 - i)).
Proof.
  intros Hr. cbv zeta. pose proof (reachable_invariant r Hr) as Hinv.
  pose proof (stage1_invariant x r Hinv) as Hinv1.
  pose proof (stage1_window x r Hinv) as Hwin.
  pose proof (inv_s1 r Hinv) as [Hidx _ _].
  destruct (stage1_fields x r) as (E1 & E2 & E3 & E4 & E5 & _ & E7 & E8 & E9).
  cbv zeta in E1, E2, E3, E4, E5, E7, E8, E9.
  assert (Hy : convolve (s1_history (fst (stage1 x r))) (s1_head (fst (stage1 x r)))
                 (s1_coeffs_rev (fst (stage1 x r))) S1_TAPS
               = fir (window (s1_history (fst (stage1 x r))) (s1_head (fst (stage1 x r))) 61)
                     (s1_coeffs_rev (fst (stage1 x r)))).
  { destruct Hinv1 as [Hl1 [_ Hh1 _] _ _].
    apply convolve_fir; destruct Hl1; unfold S1_TAPS; lia. }
  rewrite E1, E2, E5 in Hy at 1.
  unfold push_stage1.
  destruct (stage1 x r) as [r1 oy]. cbn [fst snd] in *.
  split; [done |]. split; [| split; [| split; [| split; [| split]]]].
  - intros Hlt. destruct (Z_le_dec 5 (s1_index r + 1)); [lia |]. subst oy. by repeat split.
  - intros Heq. destruct (Z_le_dec 5 (s1_index r + 1)); [| lia]. subst oy.
    split; [done |]. by rewrite Hy.
  - destruct (Z_le_dec 5 (s1_index r + 1)); subst oy.
    + rewrite push_stage2_s1_index by done. rewrite E3.
      replace (s1_index r + 1) with 5 by lia. reflexivity.
    + cbn [fst]. rewrite E3, Z.mod_small by lia. reflexivity.
  - exact Hwin.
  - destruct Hinv1 as [Hl1 _ _ _]. apply Hl1.
  - destruct Hinv1 as [Hl1 _ _ [Hc _]]. intros i Hi. rewrite !rd_lookup.
    + f_equal. by apply Hc.
    + rewrite length_S1_COEFFS. lia.
    + destruct Hl1. lia.
Qed.

Lemma stage1_decimates_by_five_witness :
  let r := fst (fst (process (ctor mem0) (replicate 4 one) ∅ 5)) in
  let x := one in
  let out_cap := 5%nat in
  let o := OutState ∅ 0 in
  let r1 := fst (stage1 x r) in
  let res := push_stage1 x out_cap r o in
  s1_index r + 1 = 5 /\
  0 <= s1_index r < 5 /\
  (s1_index r + 1 < 5 ->
     res = (r1, o) /\ s1_index r1 = s1_index r + 1 /\
     s2_history r1 = s2_history r /\ s2_head r1 = s2_head r /\
     s2_phase_state r1 = s2_phase_state r) /\
  (s1_index r + 1 = 5 ->
     s1_index r1 = 0 /\
     res = push_stage2
             (fir (window (s1_history r1) (s1_head r1) 61) (s1_coeffs_rev r1))
             out_cap r1 o) /\
  s1_index (fst res) = (s1_index r + 1) mod 5 /\
  window (s1_history r1) (s1_head r1) 61
  = drop 1 (window (s1_history r) (s1_head r) 61) ++ [x] /\
  length (s1_coeffs_rev r1) = 61%nat /\
  (forall i, 0 <= i < 61 ->
     s1_coeffs_rev r1 !! Z.to_nat i = S1_COEFFS !! Z.to_nat (60 - i)).
Proof.
  split.
  - vm_compute. reflexivity.
  - apply (stage1_decimates_by_five
             (fst (fst (process (ctor mem0) (replicate 4 one) ∅ 5))) one 5 (OutState ∅ 0)).
    apply process_reachable, reachable_ctor_mem0.
Defined.

(** The fifth unit sample into a fresh resampler: [push_stage1] goes on
    into Stage 2, which writes one output. *)
Example push_stage1_fifth_sample :
  let r := fst (fst (process (ctor mem0) (replicate 4 one) ∅ 5)) in
  s1_index r = 4 /\
  out_produced (snd (push_stage1 one 5 r (OutState ∅ 0))) = 1%nat /\
  s1_index (fst (push_stage1 one 5 r (OutState ∅ 0))) = 0.
Proof. vm_compute. repeat split. Qed.

(** ** The output count (C1) *)

(** C1, as the code has it.  From a reset resampler, with
    [out_cap >= ceil (13 N / 120) + 1], [process] on [N] input samples
    produces exactly [ceil (13 * floor (N / 5) / 24)] outputs: Stage 1
    forwards every fifth input, and Stage 2 emits on the first of these
    and then 13 times in every 24.  Over a whole number of periods of 120
    inputs that is exactly 13 outputs per 120 inputs.  Every input is
    consumed: the resampler is left as by pushing the [N] samples one by
    one, the outputs are those of these pushes, the decimation counter is
    [N mod 5] and the Stage-1 window holds the last 61 inputs.  When all
    inputs are zero, of either sign, all outputs are [+0 + 0i]. *)
Theorem process_output_count
    (r : dsp_resampler) (ins : list complex) (out : gmap nat complex) (out_cap : nat) :
  reachable r ->
  ceil_div (13 * Z.of_nat (length ins)) 120 + 1 <= Z.of_nat out_cap ->
  let res := process (reset r) ins out out_cap in
  let r' := fst (fst res) in
  let out' := snd (fst res) in
  let produced := snd res in
  Z.of_nat produced = ceil_div (13 * (Z.of_nat (length ins) / 5)) 24 /\
  (Z.of_nat (length ins) mod 120 = 0 ->
     120 * Z.of_nat produced = 13 * Z.of_nat (length ins)) /\
  r' = fst (run ins (reset r)) /\
  read_out out' produced = snd (run ins (reset r)) /\
  s1_index r' = Z.of_nat (length ins) mod 5 /\
  window (s1_history r') (s1_head r') 61
  = drop (length ins) (replicate 61 c0 ++ ins) /\
  (Forall zero_valued ins ->
     forall i : nat, (i < produced)%nat -> out' !! i = Some c0).
Proof.
  intros Hr Hcap. cbv zeta.
  pose proof (reachable_invariant _ (reach_reset r Hr)) as Hinv.
  assert (Hzero : Forall zero_valued ins ->
            forall i : nat, (i < snd (process (reset r) ins out out_cap))%nat ->
              snd (fst (process (reset r) ins out out_cap)) !! i = Some c0).
  { intros Hins. unfold process.
    pose proof (process_loop_zero ins out_cap (reset r) (OutState out 0) Hins Hinv) as Hz.
    destruct (process_loop ins out_cap (reset r) (OutState out 0)) as [r' o'].
    cbn [fst snd] in *. apply Hz.
    - split; [apply zero_valued_of_c0 |]; apply Forall_zero_replicate.
    - intros i Hi. cbn in Hi. lia. }
  destruct (process_run (reset r) ins out out_cap Hinv) as [Hiff Heq].
  destruct (run_count ins (reset r) Hinv) as [Hidx Hbal].
  pose proof (run_s1_window ins (reset r) Hinv) as Hwin.
  pose proof (inv_s2 _ (run_invariant ins _ Hinv)) as [_ Hp _].
  change (s1_index (reset r)) with 0 in Hidx, Hbal.
  change (s2_phase_state (reset r)) with 0 in Hbal.
  rewrite Z.add_0_l in Hidx, Hbal.
  assert (Hcount : Z.of_nat (length (snd (run ins (reset r))))
                   = ceil_div (13 * (Z.of_nat (length ins) / 5)) 24).
  { unfold ceil_div. revert Hbal Hp.
    generalize (Z.of_nat (length ins)) (Z.of_nat (length (snd (run ins (reset r)))))
               (s2_phase_state (fst (run ins (reset r)))).
    intros N c p Hbal Hp. Z.div_mod_to_equations. lia. }
  assert (Hlt : (length (snd (run ins (reset r))) < out_cap)%nat).
  { apply Nat2Z.inj_lt. rewrite Hcount. unfold ceil_div in *. revert Hcap.
    generalize (Z.of_nat (length ins)) (Z.of_nat out_cap).
    intros N C HC. Z.div_mod_to_equations. lia. }
  apply Hiff in Hlt. rewrite (Heq Hlt) in Hzero |- *.
  rewrite ?fst_pair_eq, ?snd_pair_eq in Hzero |- *.
  split; [exact Hcount |]. split.
  { intros Hmod. rewrite Hcount. unfold ceil_div. revert Hmod.
    generalize (Z.of_nat (length ins)). intros N Hmod. Z.div_mod_to_equations. lia. }
  split; [reflexivity |]. split; [apply read_out_put_all |].
  split; [exact Hidx |]. split; [exact Hwin | exact Hzero].
Qed.

Lemma process_output_count_witness :
  let ins := replicate 120 (Complex (S754_zero true) F32.zero) in
  let res := process (reset (ctor mem0)) ins ∅ 14 in
  let r' := fst (fst res) in
  let out' := snd (fst res) in
  let produced := snd res in
  Z.of_nat produced = ceil_div (13 * (Z.of_nat (length ins) / 5)) 24 /\
  (Z.of_nat (length ins) mod 120 = 0 ->
     120 * Z.of_nat produced = 13 * Z.of_nat (length ins)) /\
  r' = fst (run ins (reset (ctor mem0))) /\
  read_out out' produced = snd (run ins (reset (ctor mem0))) /\
  s1_index r' = Z.of_nat (length ins) mod 5 /\
  window (s1_history r') (s1_head r') 61
  = drop (length ins) (replicate 61 c0 ++ ins) /\
  (Forall zero_valued ins ->
     forall i : nat, (i < produced)%nat -> out' !! i = Some c0).
Proof.
  apply (process_output_count (ctor mem0)
           (replicate 120 (Complex (S754_zero true) F32.zero)) ∅ 14).
  - apply reachable_ctor_mem0.
  - vm_compute. discriminate.
Defined.

(** 120 samples [-0.0 + 0.0i] from reset: 13 outputs, each [+0 + 0i]. *)
Example negative_zero_input :
  let ins := replicate 120 (Complex (S754_zero true) F32.zero) in
  let res := process (reset (ctor mem0)) ins ∅ 14 in
  Forall zero_valued ins /\ snd res = 13%nat /\
  read_out (snd (fst res)) (snd res) = replicate 13 c0.
Proof.
  split; [| vm_compute; by split].
  apply Forall_replicate. by split.
Qed.

(** Five zero samples from reset, with room for two outputs: one output is
    produced, where the formula [floor ((13 N + r) / 120)] with [r = 0]
    gives none. *)
Lemma zero_input_count_differs :
  let res := process (reset (ctor mem0)) (replicate 5 c0) ∅ 2 in
  ceil_div (5 * 13) 120 + 1 <= 2 /\
  snd res = 1%nat /\
  Z.of_nat (snd res) <> (5 * 13 + 0) / 120.
Proof.
  assert (H : snd (process (reset (ctor mem0)) (replicate 5 c0) ∅ 2) = 1%nat).
  { vm_compute. reflexivity. }
  cbv zeta. rewrite H. split; [| split].
  - vm_compute. discriminate.
  - reflexivity.
  - vm_compute. discriminate.
Qed.

(** ** The constructed state *)

Lemma rd_ext {A : Type} `{Inhabited A} (a b : list A) (n : nat) :
  length a = n -> length b = n ->
  (forall i, 0 <= i < Z.of_nat n -> rd a i = rd b i) -> a = b.
Proof.
  intros Ha Hb Hrd. apply list_eq. intros i.
  destruct (decide (i < n)%nat) as [Hi | Hi].
  - specialize (Hrd (Z.of_nat i) ltac:(lia)).
    rewrite <- (Nat2Z.id i).
    rewrite !rd_lookup by lia. by f_equal.
  - rewrite !lookup_ge_None_2 by lia. reflexivity.
Qed.

Lemma fill_s1_coeffs_ext a b :
  length a = 61%nat -> length b = 61%nat -> fill_s1_coeffs a = fill_s1_coeffs b.
Proof.
  intros Ha Hb.
  destruct (fill_s1_coeffs_spec a Ha) as [La Ra].
  destruct (fill_s1_coeffs_spec b Hb) as [Lb Rb].
  apply (rd_ext _ _ 61); [done | done |].
  intros i Hi. rewrite Ra, Rb by lia. reflexivity.
Qed.

Lemma fill_poly_ext a b : bank_shape a -> bank_shape b -> fill_poly a = fill_poly b.
Proof.
  intros Ha Hb.
  destruct (fill_poly_spec a Ha) as [Sa Ra].
  destruct (fill_poly_spec b Hb) as [Sb Rb].
  apply (rd_ext _ _ 13); [apply Sa | apply Sb |].
  intros p Hp.
  apply (rd_ext _ _ 57); [by apply bank_shape_rd | by apply bank_shape_rd |].
  intros j Hj. replace j with (56 - (56 - j)) by lia.
  rewrite Ra, Rb by lia. reflexivity.
Qed.

Lemma ctor_ext mem1 mem2 : layout mem1 -> layout mem2 -> ctor mem1 = ctor mem2.
Proof.
  intros [_ H1 H2 H3 _] [_ G1 G2 G3 _]. rewrite !ctor_fields.
  rewrite (fill_s1_coeffs_ext _ _ H1 G1).
  rewrite (fill_poly_ext (s2_coeffs_poly mem1) (s2_coeffs_poly mem2)) by (by split).
  reflexivity.
Qed.

Lemma push_stage1_coeffs x out_cap r o :
  invariant r ->
  s1_coeffs_rev (fst (push_stage1 x out_cap r o)) = s1_coeffs_rev r /\
  s2_coeffs_poly (fst (push_stage1 x out_cap r o)) = s2_coeffs_poly r.
Proof.
  intros Hinv. unfold push_stage1.
  pose proof (stage1_invariant x r Hinv) as Hinv1.
  destruct (stage1_fields x r) as (_ & _ & _ & _ & E4 & E5 & _). cbv zeta in *.
  destruct (stage1 x r) as [r1 [y |]]; cbn [fst] in *; [| done].
  pose proof (inv_s2 r1 Hinv1) as [_ Hp _].
  rewrite push_stage2_cases by lia. cbv zeta.
  destruct (s2_store_s1 y r1) as (_ & _ & _ & F4 & F5 & _).
  destruct (Z_lt_dec _ _); [destruct (le_dec _ _) |]; cbn [fst]; simpl;
    rewrite ?F4, ?F5; done.
Qed.

Lemma reset_record r :
  reset r = Resampler 0 (replicate 122 c0) (s1_coeffs_rev r) 0
                      (s2_coeffs_poly r) (replicate 114 c0) 0 0.
Proof. reflexivity. Qed.

Lemma ctor_record mem :
  ctor mem = Resampler 0 (replicate 122 c0) (fill_s1_coeffs (s1_coeffs_rev mem)) 0
                       (fill_poly (s2_coeffs_poly mem)) (replicate 114 c0) 0 0.
Proof. rewrite ctor_fields. reflexivity. Qed.

Lemma reachable_coeffs r mem :
  reachable r -> layout mem ->
  s1_coeffs_rev r = fill_s1_coeffs (s1_coeffs_rev mem) /\
  s2_coeffs_poly r = fill_poly (s2_coeffs_poly mem).
Proof.
  intros Hr Hl. induction Hr as [mem' Hl' | r Hr IH | r x out_cap o Hr IH].
  - rewrite (ctor_ext mem' mem Hl' Hl), ctor_record. by split.
  - rewrite reset_record. exact IH.
  - destruct (push_stage1_coeffs x out_cap r o (reachable_invariant r Hr)) as [E1 E2].
    rewrite E1, E2. exact IH.
Qed.

(** X8. The constructor initialises the whole object: whatever the
    storage held before, two constructed resamplers are equal, field by
    field. *)
Theorem ctor_initialises_everything (mem1 mem2 : dsp_resampler) :
  layout mem1 -> layout mem2 -> ctor mem1 = ctor mem2.
Proof. apply ctor_ext. Qed.

Lemma ctor_initialises_everything_witness :
  ctor mem0 = ctor (Resampler 0 (replicate 122 one) (replicate 61 F32.zero) 0
                              (replicate 13 (replicate 57 F32.zero))
                              (replicate 114 c0) 0 0).
Proof.
  apply (ctor_initialises_everything mem0); [apply layout_mem0 |].
  split; try reflexivity. simpl. repeat constructor.
Defined.

(** X9. [reset] brings a constructed resampler, in whatever state, back
    to the state the constructor leaves: the coefficient arrays are never
    written after construction, and everything else is cleared.  What
    [process] does after [reset] therefore does not depend on anything
    processed before. *)
Theorem reset_restores_constructed_state
    (r mem : dsp_resampler) (xs : list complex) (out : gmap nat complex) (out_cap : nat) :
  reachable r -> layout mem ->
  reset r = ctor mem /\
  process (reset r) xs out out_cap = process (ctor mem) xs out out_cap.
Proof.
  intros Hr Hl.
  assert (E : reset r = ctor mem).
  { destruct (reachable_coeffs r mem Hr Hl) as [E1 E2].
    rewrite reset_record, ctor_record, E1, E2. reflexivity. }
  split; [exact E | by rewrite E].
Qed.

Lemma reset_restores_constructed_state_witness :
  let r := fst (run [one; one; one; one; one; one; one] (ctor mem0)) in
  reset r = ctor mem0 /\
  process (reset r) [one; c0] ∅ 3 = process (ctor mem0) [one; c0] ∅ 3.
Proof.
  apply (reset_restores_constructed_state
           (fst (run [one; one; one; one; one; one; one] (ctor mem0))) mem0 [one; c0] ∅ 3).
  - apply run_reachable, reachable_ctor_mem0.
  - apply layout_mem0.
Defined.

(** * Further properties of the source adapter *)

(** ** The worker never runs out of output room *)

Lemma lt_to_nat (n : nat) (c : Z) : Z.of_nat n < c -> (n < Z.to_nat c)%nat.
Proof. lia. Qed.

Lemma length_take_to_nat {A : Type} (l : list A) (c : Z) :
  0 <= c -> Z.of_nat (length (take (Z.to_nat c) l)) <= c.
Proof. intros Hc. rewrite length_take. lia. Qed.

Lemma worker_process_run (chunk : list (Z * Z)) (s : iio_source) :
  reachable (m_resampler s) ->
  let batch := to_complex <$> take (Z.to_nat BATCH_SIZE) chunk in
  let res := worker_process chunk s in
  Z.of_nat (snd res) <= 3551 /\
  fst (fst res) = fst (run batch (m_resampler s)) /\
  read_out (snd (fst res)) (snd res) = snd (run batch (m_resampler s)).
Proof.
  intros Hr. cbv zeta. unfold worker_process.
  assert (Hconv : convert_batch chunk 0 = to_complex <$> take (Z.to_nat BATCH_SIZE) chunk).
  { rewrite convert_batch_take by lia. by rewrite Z.sub_0_r. }
  rewrite Hconv.
  set (batch := to_complex <$> take (Z.to_nat BATCH_SIZE) chunk).
  assert (HN : Z.of_nat (length batch) <= 32768).
  { unfold batch. rewrite length_fmap.
    etrans; [apply length_take_to_nat; by unfold BATCH_SIZE | by unfold BATCH_SIZE]. }
  clearbody batch.
  pose proof (reachable_invariant _ Hr) as Hinv.
  destruct (process_run (m_resampler s) batch ∅ (Z.to_nat BATCH_SIZE) Hinv) as [Hiff Heq].
  destruct (run_count batch (m_resampler s) Hinv) as [_ Hbal].
  pose proof (inv_s1 _ Hinv) as [Hidx _ _]. pose proof (inv_s2 _ Hinv) as [_ Hp _].
  pose proof (inv_s2 _ (run_invariant batch _ Hinv)) as [_ Hp' _].
  assert (Hle : Z.of_nat (length (snd (run batch (m_resampler s)))) <= 3551).
  { revert Hbal Hp' HN. generalize (Z.of_nat (length (snd (run batch (m_resampler s))))).
    generalize (s2_phase_state (fst (run batch (m_resampler s)))).
    revert Hidx Hp. generalize (s1_index (m_resampler s)) (s2_phase_state (m_resampler s)).
    generalize (Z.of_nat (length batch)).
    intros N i p Hi Hp p' c Hbal Hp' HN. Z.div_mod_to_equations. lia. }
  assert (Hlt : (length (snd (run batch (m_resampler s))) < Z.to_nat BATCH_SIZE)%nat).
  { apply lt_to_nat. unfold BATCH_SIZE. lia. }
  apply Hiff in Hlt. rewrite (Heq Hlt). rewrite ?fst_pair_eq, ?snd_pair_eq.
  split; [exact Hle |]. split; [reflexivity | apply read_out_put_all].
Qed.

(** X10. In the worker loop the resampler never meets a full output
    buffer: whatever the chunk and the state of the resampler, [process]
    returns at most 3551, far below its capacity of 32768, and has consumed
    the whole converted batch, so that the branch of [process] that
    abandons input is not taken there. *)
Theorem worker_consumes_whole_batch (chunk : list (Z * Z)) (s : iio_source) :
  reachable (m_resampler s) ->
  let batch := to_complex <$> take (Z.to_nat BATCH_SIZE) chunk in
  let res := worker_process chunk s in
  Z.of_nat (snd res) <= 3551 /\
  fst (fst res) = fst (run batch (m_resampler s)) /\
  read_out (snd (fst res)) (snd res) = snd (run batch (m_resampler s)).
Proof. exact (worker_process_run chunk s). Qed.

Lemma worker_consumes_whole_batch_witness :
  let s := source_open 4 in
  let batch := to_complex <$> take (Z.to_nat BATCH_SIZE) chunk5 in
  let res := worker_process chunk5 s in
  Z.of_nat (snd res) <= 3551 /\
  fst (fst res) = fst (run batch (m_resampler s)) /\
  read_out (snd (fst res)) (snd res) = snd (run batch (m_resampler s)).
Proof.
  apply (worker_consumes_whole_batch chunk5 (source_open 4)).
  apply reachable_ctor_mem0.
Defined.

(** ** Conversion of the driver's samples *)









(** ** Start, stop and close *)

(** X12. A second [stop] does nothing, and [stop] touches neither the
    ring buffer, nor the overflow counter, nor the resampler; after it
    [streaming] is false. *)
Theorem stop_idempotent (s : iio_source) :
  stop (stop s) = stop s /\
  streaming (stop s) = false /\
  cb (stop s) = cb s /\
  m_overflow_count (stop s) = m_overflow_count s /\
  m_resampler (stop s) = m_resampler s /\
  (streaming s = false -> stop s = s).
Proof.
  unfold stop. destruct s as [dev rx b st ov rs]. destruct st; simpl; repeat split; done.
Qed.

Lemma stop_idempotent_witness :
  let s := source_open 4 in
  stop (stop s) = stop s /\
  streaming (stop s) = false /\
  cb (stop s) = cb s /\
  m_overflow_count (stop s) = m_overflow_count s /\
  m_resampler (stop s) = m_resampler s /\
  (streaming s = false -> stop s = s).
Proof. exact (stop_idempotent (source_open 4)). Defined.

(** X13. [close] leaves the source stopped, with neither driver buffer nor
    ring buffer, and with its overflow counter and resampler as they were;
    a second [close] changes nothing, and [close] after [stop] is [close].
    After [close], [fill] returns -1 at once, storing nothing, whatever
    happens around it. *)
Theorem close_then_fill (s : iio_source) (flag : bool)
    (num_samples : Z) (overruns create_ok : bool) (env : list (list event)) :
  streaming (close s) = false /\ m_rxbuf (close s) = false /\ cb (close s) = None /\
  m_overflow_count (close s) = m_overflow_count s /\
  m_resampler (close s) = m_resampler s /\
  close (close s) = close s /\
  close (stop s) = close s /\
  fill num_samples overruns create_ok env (World (close s) flag)
  = Some (-1, None, World (close s) flag).
Proof.
  destruct s as [dev rx b st ov rs]. by destruct st.
Qed.

(** X14. When [fill] finds the source stopped it calls [start], and
    [start] zeroes the overflow counter: what [fill] then does and reports
    does not depend on the value the counter had. *)
Theorem fill_restart_forgets_overflow (s : iio_source) (flag : bool) (c : Z)
    (b : circular_buffer)
    (num_samples : Z) (overruns create_ok : bool) (env : list (list event)) :
  cb s = Some b -> streaming s = false -> m_dev s = true ->
  fill num_samples overruns create_ok env (World (set_m_overflow_count c s) flag)
  = fill num_samples overruns create_ok env (World s flag).
Proof.
  intros Hb Hs Hd. unfold fill, ensure_started, start.
  destruct s as [dev rx b' st ov rs]. simpl in *. subst. reflexivity.
Qed.

Lemma fill_restart_forgets_overflow_witness :
  fill 1 true true [[Worker chunk5 true]]
       (World (set_m_overflow_count 77 (stop (source_open 4))) false)
  = fill 1 true true [[Worker chunk5 true]] (World (stop (source_open 4)) false).
Proof.
  apply (fill_restart_forgets_overflow (stop (source_open 4)) false 77
           (CircularBuffer [] 4 false)); reflexivity.
Defined.

(** X15. When [fill] finds the source stopped and [start] fails (no
    device, or the driver creates no buffer), [fill] returns -1 without
    waiting, whatever the amount of data in the ring buffer. *)
Theorem fill_start_failure (s : iio_source) (flag : bool) (b : circular_buffer)
    (num_samples : Z) (overruns create_ok : bool) (env : list (list event)) :
  cb s = Some b -> streaming s = false ->
  m_dev s = false \/ create_ok = false ->
  fill num_samples overruns create_ok env (World s flag)
  = Some (-1, None, ensure_started create_ok (World s flag)) /\
  snd (start create_ok s) = -1.
Proof.
  intros Hb Hs Hfail. unfold fill, ensure_started, start.
  destruct s as [dev rx b' st ov rs]. simpl in *. subst. simpl.
  destruct dev; simpl.
  - destruct Hfail as [? | ->]; [done |]. simpl.
    destruct env, flag; simpl; rewrite ?orb_true_r; done.
  - destruct env, flag; simpl; rewrite ?orb_true_r; done.
Qed.

Lemma fill_start_failure_witness :
  let s := stop (source_open 4) in
  fill 1 true false [] (World s false)
  = Some (-1, None, ensure_started false (World s false)) /\
  snd (start false s) = -1.
Proof.
  apply (fill_start_failure (stop (source_open 4)) false (CircularBuffer [] 4 false) 1 true false []).
  - reflexivity.
  - reflexivity.
  - by right.
Defined.

(** ** The worker loop as a whole *)

Lemma worker_iteration_fields chunk lock_acquired s :
  streaming (worker_iteration chunk lock_acquired s) = streaming s /\
  m_dev (worker_iteration chunk lock_acquired s) = m_dev s /\
  m_rxbuf (worker_iteration chunk lock_acquired s) = m_rxbuf s /\
  (cb (worker_iteration chunk lock_acquired s) = None <-> cb s = None) /\
  m_resampler (worker_iteration chunk lock_acquired s) = fst (fst (worker_process chunk s)).
Proof.
  unfold worker_iteration.
  destruct (worker_process chunk s) as [[r out_buf] produced].
  rewrite !fst_pair_eq.
  destruct s as [dev rx b st ov rs]. cbn [set_m_resampler m_dev m_rxbuf cb streaming
    m_overflow_count m_resampler].
  destruct (decide (0 < produced)%nat); [| done].
  destruct lock_acquired; [| done].
  cbn [cb]. destruct b as [b|]; [| done].
  destruct (write (read_out out_buf produced) b) as [b' written].
  cbn [set_cb m_dev m_rxbuf cb streaming m_overflow_count m_resampler].
  destruct (decide (written < produced)%nat); done.
Qed.

Lemma worker_iteration_reachable chunk lock_acquired s :
  reachable (m_resampler s) ->
  reachable (m_resampler (worker_iteration chunk lock_acquired s)).
Proof.
  intros Hr.
  destruct (worker_iteration_fields chunk lock_acquired s) as (_ & _ & _ & _ & ->).
  destruct (worker_process_run chunk s Hr) as (_ & -> & _).
  by apply run_reachable.
Qed.

Lemma worker_thread_spec refills : forall s st s',
  reachable (m_resampler s) ->
  worker_thread refills s = (st, s') ->
  streaming s' = streaming s /\
  m_dev s' = m_dev s /\
  m_rxbuf s' = m_rxbuf s /\
  (cb s' = None <-> cb s = None) /\
  reachable (m_resampler s') /\
  (st = WorkerStopped <-> streaming s = false) /\
  (st = WorkerFailed <-> streaming s = true /\ In None refills).
Proof.
  induction refills as [| refill rest IH]; intros s st s' Hr Hw; cbn [worker_thread] in Hw.
  - destruct (streaming s) eqn:Hs; inversion Hw; subst; rewrite ?Hs.
    + do 5 (split; [done |]). split; [done |]. split; [done | by intros [_ []]].
    + do 5 (split; [done |]). split; [done |]. split; [done | by intros [? _]].
  - destruct (streaming s) eqn:Hs.
    + destruct refill as [[chunk lock_acquired] |].
      * destruct (worker_iteration_fields chunk lock_acquired s) as (Es & Ed & Erx & Ecb & _).
        pose proof (worker_iteration_reachable chunk lock_acquired s Hr) as Hr1.
        destruct (IH _ _ _ Hr1 Hw) as (Is & Id & Irx & Icb & Irs & Ist & Ifail).
        rewrite Es in *. rewrite Ed in *. rewrite Erx in *. rewrite Hs in *.
        do 3 (split; [done |]). split; [by rewrite Icb |]. split; [done |].
        split; [done |]. rewrite Ifail. split.
        -- intros [_ H]. split; [done | by right].
        -- intros [_ [H | H]]; [done | by split].
      * inversion Hw; subst. rewrite Hs.
        do 5 (split; [done |]). split; [done |]. split; [| done].
        intros _. split; [done | by left].
    + inversion Hw; subst. rewrite Hs.
      do 5 (split; [done |]). split; [done |]. split; [done | by intros [? _]].
Qed.

(** X16. The worker loop, over any number of refills, changes neither
    [streaming], nor [m_dev], nor the driver buffer, creates or deletes no
    ring buffer, and keeps the resampler in a state reachable from the
    constructor.  It is left by the [break] exactly when it was entered
    with [streaming] true and some refill failed; [streaming] is then still
    true. *)
Theorem worker_thread_preserves (refills : list (option (list (Z * Z) * bool)))
    (s : iio_source) :
  reachable (m_resampler s) ->
  let st := fst (worker_thread refills s) in
  let s' := snd (worker_thread refills s) in
  streaming s' = streaming s /\
  m_dev s' = m_dev s /\
  m_rxbuf s' = m_rxbuf s /\
  (cb s' = None <-> cb s = None) /\
  reachable (m_resampler s') /\
  (st = WorkerStopped <-> streaming s = false) /\
  (st = WorkerFailed <-> streaming s = true /\ In None refills) /\
  (st = WorkerFailed -> streaming s' = true).
Proof.
  intros Hr. cbv zeta.
  destruct (worker_thread refills s) as [st s'] eqn:Hw. rewrite fst_pair_eq, snd_pair_eq.
  destruct (worker_thread_spec refills s st s' Hr Hw) as (Hs & Hd & Hrx & Hcb & Hrs & Hst & Hf).
  do 7 (split; [done |]).
  intros Hfail. apply Hf in Hfail as [Hs1 _]. by rewrite Hs.
Qed.

Lemma worker_thread_preserves_witness :
  let s := source_open 4 in
  let refills := [Some (chunk5, true); None; Some (chunk5, false)] in
  let st := fst (worker_thread refills s) in
  let s' := snd (worker_thread refills s) in
  streaming s' = streaming s /\
  m_dev s' = m_dev s /\
  m_rxbuf s' = m_rxbuf s /\
  (cb s' = None <-> cb s = None) /\
  reachable (m_resampler s') /\
  (st = WorkerStopped <-> streaming s = false) /\
  (st = WorkerFailed <-> streaming s = true /\ In None refills) /\
  (st = WorkerFailed -> streaming s' = true).
Proof.
  apply (worker_thread_preserves [Some (chunk5, true); None; Some (chunk5, false)]
           (source_open 4)).
  apply reachable_ctor_mem0.
Defined.

(** ** The ring buffer exists while the worker runs *)

Lemma running_buffer s :
  buffer_while_streaming s -> streaming s = true -> exists b, cb s = Some b.
Proof.
  intros Hb Hs. destruct (cb s) as [b |] eqn:Hcb; [by exists b |].
  exfalso. by apply Hb.
Qed.

Lemma idle_buffer s : streaming s = false -> buffer_while_streaming s.
Proof. intros Hs Hs'. congruence. Qed.

Lemma stop_streaming s : streaming (stop s) = false.
Proof. unfold stop. destruct s as [dev rx b st ov rs]. by destruct st. Qed.

Lemma stop_buffer s : buffer_while_streaming (stop s).
Proof. apply idle_buffer, stop_streaming. Qed.

Lemma close_buffer s : buffer_while_streaming (close s).
Proof. apply idle_buffer. destruct s as [dev rx b st ov rs]. by destruct st. Qed.

Lemma ensure_started_buffer create_ok w :
  cb (source w) <> None -> buffer_while_streaming (source (ensure_started create_ok w)).
Proof.
  intros Hcb _. unfold ensure_started, start.
  destruct w as [[dev rx b st ov rs] flag]. cbn in *.
  destruct st; cbn; [done |]. destruct dev; cbn; [| done]. by destruct create_ok.
Qed.

Lemma worker_iteration_buffer chunk lock_acquired s :
  buffer_while_streaming s ->
  buffer_while_streaming (worker_iteration chunk lock_acquired s).
Proof.
  intros Hb. unfold buffer_while_streaming.
  destruct (worker_iteration_fields chunk lock_acquired s) as (-> & _ & _ & -> & _).
  exact Hb.
Qed.

Lemma worker_thread_buffer refills : forall s,
  buffer_while_streaming s -> buffer_while_streaming (snd (worker_thread refills s)).
Proof.
  induction refills as [| [[chunk lock_acquired] |] rest IH]; intros s Hb;
    cbn [worker_thread]; destruct (streaming s); try done.
  by apply IH, worker_iteration_buffer.
Qed.

(** ** What wakes [fill] *)

Lemma run_event_Some w e w' :
  run_event w e = Some w' ->
  g_kal_exit_req w' = g_kal_exit_req w || is_sigint e /\
  streaming (source w') = streaming (source w) && negb (is_stop e) /\
  (buffer_while_streaming (source w) -> buffer_while_streaming (source w')).
Proof.
  destruct e; cbn [run_event is_sigint is_stop].
  - destruct (streaming (source w)) eqn:Hs; intros Hw; inversion Hw; subst;
      cbn [g_kal_exit_req source]; rewrite orb_false_r, andb_true_r.
    + destruct (worker_iteration_fields chunk lock_acquired (source w)) as (-> & _).
      split; [done |]. split; [done |]. apply worker_iteration_buffer.
    + by rewrite Hs.
  - unfold sighandler. destruct (g_kal_exit_req w) eqn:Hf; [discriminate |].
    intros Hw; inversion Hw; subst. cbn [g_kal_exit_req source].
    by rewrite andb_true_r.
  - intros Hw; inversion Hw; subst. cbn [g_kal_exit_req source].
    rewrite orb_false_r, andb_false_r, stop_streaming.
    split; [done |]. split; [done |]. intros _. apply stop_buffer.
Qed.

Lemma run_events_Some evs : forall w w',
  run_events w evs = Some w' ->
  g_kal_exit_req w' = g_kal_exit_req w || existsb is_sigint evs /\
  streaming (source w') = streaming (source w) && negb (existsb is_stop evs) /\
  (buffer_while_streaming (source w) -> buffer_while_streaming (source w')).
Proof.
  induction evs as [| e evs IH]; intros w w' Hw; cbn [run_events] in Hw.
  - inversion Hw; subst. cbn [existsb]. by rewrite orb_false_r, andb_true_r.
  - destruct (run_event w e) as [w1 |] eqn:He; [| discriminate].
    destruct (run_event_Some _ _ _ He) as (Hf1 & Hs1 & Hb1).
    destruct (IH _ _ Hw) as (Hf & Hs & Hb).
    rewrite Hf, Hs, Hf1, Hs1. cbn [existsb].
    rewrite <- orb_assoc, <- andb_assoc, negb_orb. by auto.
Qed.

Lemma run_env_Some env : forall w w',
  run_env w env = Some w' ->
  g_kal_exit_req w' = g_kal_exit_req w || existsb is_sigint (concat env) /\
  streaming (source w') = streaming (source w) && negb (existsb is_stop (concat env)) /\
  (buffer_while_streaming (source w) -> buffer_while_streaming (source w')).
Proof.
  induction env as [| evs env IH]; intros w w' Hw; cbn [run_env] in Hw.
  - inversion Hw; subst. cbn. by rewrite orb_false_r, andb_true_r.
  - destruct (run_events w evs) as [w1 |] eqn:He; [| discriminate].
    destruct (run_events_Some _ _ _ He) as (Hf1 & Hs1 & Hb1).
    destruct (IH _ _ Hw) as (Hf & Hs & Hb).
    rewrite Hf, Hs, Hf1, Hs1. cbn [concat]. rewrite !existsb_app.
    rewrite <- orb_assoc, <- andb_assoc, negb_orb. by auto.
Qed.

(** [fill] leaves the ring buffer in place while the worker runs: it is
    the only caller of [start], and calls it with [cb] non-null. *)
Lemma fill_keeps_buffer num_samples overruns create_ok env w ret stored w' :
  buffer_while_streaming (source w) ->
  fill num_samples overruns create_ok env w = Some (ret, stored, w') ->
  buffer_while_streaming (source w').
Proof.
  intros Hb. unfold fill. destruct (cb (source w)) as [b |] eqn:Hcb.
  2: { intros H; inversion H; by subst. }
  assert (Hb0 : buffer_while_streaming (source (ensure_started create_ok w))).
  { apply ensure_started_buffer. by rewrite Hcb. }
  destruct (fill_wait num_samples env (ensure_started create_ok w)) as [[ex w1] |] eqn:Hwait;
    [| discriminate].
  apply fill_wait_Some in Hwait as (k & _ & Hrun & _ & _).
  destruct (run_env_Some _ _ _ Hrun) as (_ & _ & Hb1). specialize (Hb1 Hb0).
  destruct ex; [intros H; inversion H; by subst |].
  destruct (negb (streaming (source w1))); [intros H; inversion H; by subst |].
  destruct overruns; intros H; inversion H; subst; [| done].
  exact Hb1.
Qed.

(** X18. A signal or a call of [stop] never leaves [fill] waiting.  When
    one of them is among the events that happen while [fill] waits, either
    [fill] returns, with -1 or 0, and with 0 only if the exit flag was
    clear when it was called; or a second signal has arrived before
    [fill] looked at the flag again and [sighandler] has ended the process
    with [_exit(1)].  The exit flag, once set, stays set, and no event
    sets [streaming] again. *)
Theorem fill_woken (num_samples : Z) (overruns create_ok : bool)
    (env : list (list event)) (w : world) :
  In Sigint (concat env) \/ In Stop (concat env) ->
  (exists ret stored w',
     fill num_samples overruns create_ok env w = Some (ret, stored, w') /\
     (ret = -1 \/ ret = 0) /\
     (ret = 0 -> g_kal_exit_req w = false)) \/
  (fill num_samples overruns create_ok env w = None /\
   run_env (ensure_started create_ok w) env = None).
Proof.
  intros Hev. unfold fill. destruct (cb (source w)) as [b |] eqn:Hcb.
  2: { left. exists (-1), None, w. split; [done |]. split; [by left | done]. }
  destruct (fill_wait num_samples env (ensure_started create_ok w)) as [[ex w1] |] eqn:Hwait.
  - left. pose proof Hwait as Hw2.
    apply fill_wait_Some in Hw2 as (k & Hk & Hrun & _ & Hex).
    assert (Hflag : g_kal_exit_req w1 = false -> g_kal_exit_req w = false).
    { destruct (run_env_Some _ _ _ Hrun) as (-> & _). intros H.
      apply orb_false_iff in H as [H _].
      unfold ensure_started in H. by destruct (negb (streaming (source w))). }
    destruct ex.
    + exists (-1), None, w1. split; [done |]. split; [by left | done].
    + destruct Hex as [Hf _]. destruct (negb (streaming (source w1))).
      * exists (-1), None, w1. split; [done |]. split; [by left | done].
      * destruct overruns; eexists _, _, _; (split; [reflexivity |]);
          (split; [by right |]); intros _; by apply Hflag.
  - right. split; [done |].
    destruct (run_env (ensure_started create_ok w) env) as [we |] eqn:Hrun; [| done].
    exfalso. pose proof (proj1 (fill_wait_None _ _ _) Hwait) as Hn.
    assert (Hr : ready num_samples we = false).
    { apply (Hn (length env)); [done | by rewrite firstn_all]. }
    destruct (run_env_Some _ _ _ Hrun) as (Hf & Hs & _).
    unfold ready in Hr. apply orb_false_iff in Hr as [Hr Hs'].
    apply orb_false_iff in Hr as [Hf' _]. rewrite Hf in Hf'.
    apply orb_false_iff in Hf' as [_ Hf']. apply negb_false_iff in Hs'.
    rewrite Hs in Hs'. apply andb_true_iff in Hs' as [_ Hs'].
    apply negb_true_iff in Hs'.
    destruct Hev as [Hin | Hin].
    + assert (existsb is_sigint (concat env) = true) as Hex
        by (apply existsb_exists; by exists Sigint).
      congruence.
    + assert (existsb is_stop (concat env) = true) as Hex
        by (apply existsb_exists; by exists Stop).
      congruence.
Qed.

Lemma fill_woken_witness :
  let env := [[Worker chunk5 true]; [Sigint]] in
  let w := World (source_open 4) false in
  (exists ret stored w',
     fill 3 true true env w = Some (ret, stored, w') /\
     (ret = -1 \/ ret = 0) /\
     (ret = 0 -> g_kal_exit_req w = false)) \/
  (fill 3 true true env w = None /\
   run_env (ensure_started true w) env = None).
Proof.
  apply (fill_woken 3 true true [[Worker chunk5 true]; [Sigint]] (World (source_open 4) false)).
  left. simpl. right. by left.
Defined.

(** Three samples are asked for; the worker delivers one, then a signal
    arrives: [fill] returns -1 and stores nothing. *)
Example fill_woken_by_signal :
  match fill 3 true true [[Worker chunk5 true]; [Sigint]] (World (source_open 4) false) with
  | Some (ret, stored, w') => ret = -1 /\ stored = None /\ g_kal_exit_req w' = true
  | None => False
  end.
Proof. vm_compute. repeat split. Qed.

(** X19. When the worker has left its loop on a failed refill, [streaming]
    is still true: a [fill] that asks for more than the ring buffer holds
    then waits through any number of timeouts, until a signal or a call of
    [stop]. *)
Theorem fill_waits_after_worker_failure (refills : list (option (list (Z * Z) * bool)))
    (s : iio_source) (b : circular_buffer)
    (num_samples : Z) (overruns create_ok : bool) (k : nat) :
  reachable (m_resampler s) ->
  fst (worker_thread refills s) = WorkerFailed ->
  cb (snd (worker_thread refills s)) = Some b ->
  Z.of_nat (data_available b) < num_samples ->
  fill num_samples overruns create_ok (replicate k [])
       (World (snd (worker_thread refills s)) false) = None.
Proof.
  intros Hr Hst Hcb Hlt.
  destruct (worker_thread refills s) as [st s'] eqn:Hw.
  rewrite fst_pair_eq in Hst. rewrite snd_pair_eq in *. subst st.
  destruct (worker_thread_spec refills s WorkerFailed s' Hr Hw) as (Hs & _ & _ & _ & _ & _ & Hf).
  destruct (proj1 Hf eq_refl) as [Hs1 _]. rewrite Hs1 in Hs.
  unfold fill. cbn [source]. rewrite Hcb. unfold ensure_started. cbn [source]. rewrite Hs.
  cbn [negb].
  assert (Hwait : fill_wait num_samples (replicate k []) (World s' false) = None).
  { induction k as [| k IH]; cbn [replicate fill_wait run_events g_kal_exit_req source];
      unfold available; cbn [source]; rewrite Hcb, Hs;
      (destruct (Z.leb_spec num_samples (Z.of_nat (data_available b))) as [Hle | _]; [lia |]);
      cbn [orb negb]; [done |]. exact IH. }
  by rewrite Hwait.
Qed.

Lemma fill_waits_after_worker_failure_witness :
  fill 1 true true (replicate 3 [])
       (World (snd (worker_thread [None] (source_open 4))) false) = None.
Proof.
  apply (fill_waits_after_worker_failure [None] (source_open 4) (CircularBuffer [] 4 false)).
  - apply reachable_ctor_mem0.
  - reflexivity.
  - reflexivity.
  - vm_compute. reflexivity.
Defined.

(** ** The comparison used for sorting *)

Lemma SFcompare_antisym (a b : float) :
  SFcompare b a = option_map CompOpp (SFcompare a b).
Proof.
  destruct a as [sa | sa | | sa ma ea], b as [sb | sb | | sb mb eb];
    try destruct sa; try destruct sb; try reflexivity; cbn [SFcompare option_map].
  all: rewrite (Z.compare_antisym ea eb); destruct (ea ?= eb); cbn [CompOpp];
    try reflexivity; f_equal.
  all: change (Pos.compare_cont Eq mb ma) with (Pos.compare mb ma);
    change (Pos.compare_cont Eq ma mb) with (Pos.compare ma mb);
    rewrite (Pos.compare_antisym ma mb); by destruct (ma ?= mb)%positive.
Qed.

Lemma SFltb_Lt (a b : float) : SFltb a b = true <-> SFcompare a b = Some Lt.
Proof.
  unfold SFltb. destruct (SFcompare a b) as [[]|]; split; intros H; try done.
Qed.

Lemma SFcompare_Lt_trans (a b c : float) :
  SFcompare a b = Some Lt -> SFcompare b c = Some Lt -> SFcompare a c = Some Lt.
Proof.
  destruct a as [sa | sa | | sa ma ea], b as [sb | sb | | sb mb eb],
           c as [sc | sc | | sc mc ec];
    try destruct sa; try destruct sb; try destruct sc;
    cbn [SFcompare]; try done.
  all: intros H1 H2; f_equal.
  all: change (Pos.compare_cont Eq ma mb) with (Pos.compare ma mb) in H1;
    change (Pos.compare_cont Eq mb mc) with (Pos.compare mb mc) in H2;
    change (Pos.compare_cont Eq ma mc) with (Pos.compare ma mc).
  all: destruct (Z.compare_spec ea eb), (Z.compare_spec eb ec), (Z.compare_spec ea ec);
    try done; try lia.
  all: destruct (Pos.compare_spec ma mb), (Pos.compare_spec mb mc), (Pos.compare_spec ma mc);
    cbn [CompOpp] in *; try done; lia.
Qed.

(** X20. [float_comp] answers -1, 0 or 1; swapping its arguments negates
    the answer; a value compares equal to itself and [-0.0] to [+0.0];
    "less than" is transitive.  A NaN compares equal to every value, so on
    data that holds a NaN "compares equal" is not transitive. *)
Theorem float_comp_order (a b c : float) :
  float_comp b a = - float_comp a b /\
  (float_comp a b = -1 \/ float_comp a b = 0 \/ float_comp a b = 1) /\
  float_comp a a = 0 /\
  float_comp (S754_zero true) (S754_zero false) = 0 /\
  (float_comp a b = -1 -> float_comp b c = -1 -> float_comp a c = -1) /\
  float_comp a S754_nan = 0 /\ float_comp S754_nan c = 0.
Proof.
  unfold float_comp, SFltb.
  split.
  { rewrite (SFcompare_antisym a b). by destruct (SFcompare a b) as [[]|]. }
  split.
  { rewrite (SFcompare_antisym a b). destruct (SFcompare a b) as [[]|]; cbn; by auto. }
  split.
  { pose proof (SFcompare_antisym a a) as H. destruct (SFcompare a a) as [[]|]; done. }
  split; [reflexivity |].
  split.
  { intros H1 H2.
    assert (Hab : SFcompare a b = Some Lt).
    { rewrite (SFcompare_antisym a b) in H1. destruct (SFcompare a b) as [[]|]; done. }
    assert (Hbc : SFcompare b c = Some Lt).
    { rewrite (SFcompare_antisym b c) in H2. destruct (SFcompare b c) as [[]|]; done. }
    by rewrite (SFcompare_Lt_trans a b c Hab Hbc). }
  split; [by destruct a | by destruct c].
Qed.

Lemma float_comp_order_witness :
  let a := F32.of_int 1 in
  let b := F32.of_int 2 in
  let c := F32.of_int 3 in
  float_comp b a = - float_comp a b /\
  (float_comp a b = -1 \/ float_comp a b = 0 \/ float_comp a b = 1) /\
  float_comp a a = 0 /\
  float_comp (S754_zero true) (S754_zero false) = 0 /\
  (float_comp a b = -1 -> float_comp b c = -1 -> float_comp a c = -1) /\
  float_comp a S754_nan = 0 /\ float_comp S754_nan c = 0.
Proof. exact (float_comp_order (F32.of_int 1) (F32.of_int 2) (F32.of_int 3)). Defined.
